(** * TennisPulse: the training-session analyzer

    A shallow embedding of [tennis::TennisAnalyzer]
    (TennisPulse/Analytics/tennis_analyzer.cpp) and the properties of it
    that the specification states.

    C++ [double] is IEEE-754 binary64.  It is modelled by the standard
    library's [spec_float] at precision 53 and maximal exponent 1024, whose
    operations round to nearest, ties to even, and have signed zeros,
    infinities and NaN.  Every definition computes. *)

From Stdlib Require Import ZArith List Bool String Ascii Lia.
From Stdlib Require Import Floats.SpecFloat Floats.PrimFloat Floats.FloatOps.
From Stdlib Require Import DecimalString DecimalNat.
Import ListNotations.

Local Open Scope Z_scope.

(** ** Binary64 arithmetic *)

Module Double.

Definition prec : Z := 53.
Definition emax : Z := 1024.

Definition double : Type := spec_float.

Definition add : double -> double -> double := SFadd prec emax.
Definition sub : double -> double -> double := SFsub prec emax.
Definition mul : double -> double -> double := SFmul prec emax.
Definition div : double -> double -> double := SFdiv prec emax.
Definition sqrt : double -> double := SFsqrt prec emax.
Definition abs : double -> double := SFabs.
Definition ltb : double -> double -> bool := SFltb.
Definition leb : double -> double -> bool := SFleb.
Definition eqb : double -> double -> bool := SFeqb.

(** [static_cast<double>] of an integer: the nearest binary64 value. *)
Definition of_Z (z : Z) : double := binary_normalize prec emax z 0 false.

(** The doubles the type really has: canonical mantissa and exponent. *)
Definition is_double (x : double) : bool := valid_binary prec emax x.

Definition zero : double := S754_zero false.
Definition one : double := S754_finite false 4503599627370496 (-52).
Definition infinity : double := S754_infinity false.
Definition nan : double := S754_nan.

(** [std::min] and [std::max] as the C++ library defines them:
    [min(a,b)] is [b < a ? b : a] and [max(a,b)] is [a < b ? b : a]. *)
Definition min (a b : double) : double := if ltb b a then b else a.
Definition max (a b : double) : double := if ltb a b then b else a.

End Double.

Import Double.

Declare Scope double_scope.
Delimit Scope double_scope with D.
Bind Scope double_scope with double.
Infix "+" := add : double_scope.
Infix "-" := sub : double_scope.
Infix "*" := mul : double_scope.
Infix "/" := div : double_scope.
Infix "<?" := ltb : double_scope.
Infix "<=?" := leb : double_scope.
Infix "=?" := eqb : double_scope.

(** The floating literals of the source, each the binary64 value nearest to
    the decimal that is written. *)
Definition lit_0_2 : double := S754_finite false 7205759403792794 (-55).
Definition lit_0_4 : double := S754_finite false 7205759403792794 (-54).
Definition lit_0_6 : double := S754_finite false 5404319552844595 (-53).
Definition lit_30 : double := S754_finite false 8444249301319680 (-48).
Definition lit_1800 : double := S754_finite false 7916483719987200 (-42).
Definition lit_3600 : double := S754_finite false 7916483719987200 (-41).

(** ** Constants of the analyzer *)

Definition MIN_DURATION : double := zero.
Definition MAX_DURATION : double := S754_finite false 5937362789990400 (-36).
Definition MIN_INTENSITY : Z := 1.
Definition MAX_INTENSITY : Z := 5.
Definition EPSILON : double := S754_finite false 4835703278458517 (-82).

(** ** Outcomes of a call

    A call returns, throws [std::invalid_argument] with a message, or has
    undefined behaviour (a [std::vector] read past its end). *)

Inductive exception : Type :=
  | invalid_argument (what : string).

Inductive result (A : Type) : Type :=
  | Ok (a : A)
  | Throw (e : exception)
  | Undefined.

Arguments Ok {A} a.
Arguments Throw {A} e.
Arguments Undefined {A}.

Definition bind {A B : Type} (r : result A) (k : A -> result B) : result B :=
  match r with
  | Ok a => k a
  | Throw e => Throw e
  | Undefined => Undefined
  end.

Notation "x <- r ;; k" := (bind r (fun x => k))
  (at level 61, r at next level, right associativity).
Notation "r ;;; k" := (bind r (fun _ => k))
  (at level 61, right associativity).

(** [std::to_string] of a [size_t]. *)
Definition to_string (n : nat) : string := NilEmpty.string_of_uint (Nat.to_uint n).

Local Open Scope string_scope.

Definition size_mismatch_message : string :=
  "Durations and intensities vectors must have the same size".

Definition rest_size_message : string :=
  "Rest durations vector size must match durations vector size or be one less (for gaps between sets)".

Definition duration_range_message (i : nat) : string :=
  "Duration at index " ++ to_string i ++ " is out of valid range [0, 86400] seconds".

Definition intensity_range_message (i : nat) : string :=
  "Intensity at index " ++ to_string i ++ " is out of valid range [1, 5]".

Local Close Scope string_scope.

(** ** The analysis record *)

Record AnalysisResult : Type := {
  totalActiveTime : double;
  workRestRatio : double;
  consistencyScore : double;
  trainingDensityScore : double;
  averageIntensity : double;
  totalWorkVolume : double;
  totalSets : nat
}.

(** ** The analyzer

    [std::vector<double>] is [list double]; [std::vector<uint8_t>] is
    [list Z] (the values of a [uint8_t] are 0 to 255; arithmetic on them is
    done in [int] after promotion, so it is plain [Z] arithmetic here). *)

Module TennisAnalyzer.

Local Open Scope double_scope.

(** [std::accumulate(v.begin(), v.end(), 0.0)] *)
Definition accumulate {A : Type} (conv : A -> double) (v : list A) : double :=
  fold_left (fun acc x => acc + conv x) v zero.

Definition calculateTotalActiveTime (durations : list double) : double :=
  match durations with
  | [] => zero
  | _ => accumulate id durations
  end.

Definition calculateWorkRestRatio (durations restDurations : list double)
  : result double :=
  match durations with
  | [] => Ok zero
  | _ =>
    let totalWork := calculateTotalActiveTime durations in
    totalRest <-
      match restDurations with
      | [] => Ok totalWork
      | _ =>
        let expectedSize := List.length durations in
        let gapSize :=
          if (1 <? List.length durations)%nat then (List.length durations - 1)%nat else 0%nat in
        if negb (List.length restDurations =? expectedSize)%nat
           && negb (List.length restDurations =? gapSize)%nat
        then Throw (invalid_argument rest_size_message)
        else Ok (accumulate id restDurations)
      end ;;
    if totalRest <? EPSILON then Ok infinity
    else Ok (totalWork / totalRest)
  end.

Definition mean (values : list double) : double :=
  match values with
  | [] => zero
  | _ => accumulate id values / of_Z (Z.of_nat (List.length values))
  end.

Definition standardDeviation (values : list double) : double :=
  if (List.length values <? 2)%nat then zero
  else
    let meanValue := mean values in
    let sumSquaredDiff :=
      fold_left (fun acc value => let diff := value - meanValue in acc + diff * diff)
                values zero in
    let variance := sumSquaredDiff / of_Z (Z.of_nat (List.length values - 1)) in
    sqrt variance.

Definition coefficientOfVariation (values : list double) : double :=
  match values with
  | [] => zero
  | _ =>
    let meanValue := mean values in
    if abs meanValue <? EPSILON then zero
    else
      let stdDev := standardDeviation values in
      stdDev / meanValue
  end.

Definition normalizeIntensity (intensity : Z) : double :=
  of_Z (intensity - MIN_INTENSITY)%Z / of_Z (MAX_INTENSITY - MIN_INTENSITY)%Z.

Definition calculateConsistencyScore (durations : list double) (intensities : list Z)
  : double :=
  if (List.length durations <? 2)%nat then one
  else
    let durationCV := coefficientOfVariation durations in
    let durationConsistency := one / (one + durationCV) in
    let intensityDoubles := map of_Z intensities in
    let intensityCV := coefficientOfVariation intensityDoubles in
    let intensityConsistency := one / (one + intensityCV) in
    let consistency := lit_0_6 * durationConsistency + lit_0_4 * intensityConsistency in
    max zero (min one consistency).

(** The loop [for (i = 0; i < durations.size(); ++i)
    acc += durations[i] * weight(intensities[i])]: both vectors are read at
    the same index, and reading [intensities] past its end is undefined. *)
Fixpoint weightedVolume (weight : Z -> double) (durations : list double)
    (intensities : list Z) (acc : double) : result double :=
  match durations with
  | [] => Ok acc
  | d :: durations' =>
    match intensities with
    | [] => Undefined
    | i :: intensities' =>
      weightedVolume weight durations' intensities' (acc + d * weight i)
    end
  end.

Definition calculateTrainingDensityScore (durations : list double) (intensities : list Z)
  : result double :=
  match durations with
  | [] => Ok zero
  | _ =>
    let avgIntensity :=
      accumulate normalizeIntensity intensities / of_Z (Z.of_nat (List.length intensities)) in
    totalWorkVolume <- weightedVolume normalizeIntensity durations intensities zero ;;
    let avgDuration := mean durations in
    let maxDuration := lit_3600 in
    let volumeComponent :=
      min one (totalWorkVolume / (maxDuration * of_Z (Z.of_nat (List.length durations)))) in
    let durationComponent :=
      if avgDuration <? lit_30 then avgDuration / lit_30
      else if lit_1800 <? avgDuration then lit_1800 / avgDuration
      else one in
    let density :=
      lit_0_4 * avgIntensity + lit_0_4 * volumeComponent + lit_0_2 * durationComponent in
    Ok (max zero (min one density))
  end.

(** The two range loops of [validateInputs], each from a start index. *)
Fixpoint checkDurations (i : nat) (durations : list double) : result unit :=
  match durations with
  | [] => Ok tt
  | d :: durations' =>
    if (d <? MIN_DURATION) || (MAX_DURATION <? d)
    then Throw (invalid_argument (duration_range_message i))
    else checkDurations (S i) durations'
  end.

Fixpoint checkIntensities (i : nat) (intensities : list Z) : result unit :=
  match intensities with
  | [] => Ok tt
  | x :: intensities' =>
    if (x <? MIN_INTENSITY)%Z || (MAX_INTENSITY <? x)%Z
    then Throw (invalid_argument (intensity_range_message i))
    else checkIntensities (S i) intensities'
  end.

Definition validateInputs (durations : list double) (intensities : list Z)
  : result unit :=
  if negb (List.length durations =? List.length intensities)%nat
  then Throw (invalid_argument size_mismatch_message)
  else
    checkDurations 0 durations ;;;
    checkIntensities 0 intensities.

Definition analyze (durations : list double) (intensities : list Z)
    (restDurations : list double) : result AnalysisResult :=
  validateInputs durations intensities ;;;
  let totalActiveTime := calculateTotalActiveTime durations in
  workRestRatio <- calculateWorkRestRatio durations restDurations ;;
  let consistencyScore := calculateConsistencyScore durations intensities in
  trainingDensityScore <- calculateTrainingDensityScore durations intensities ;;
  let totalSets := List.length durations in
  let intensitySum := accumulate of_Z intensities in
  let averageIntensity := intensitySum / of_Z (Z.of_nat (List.length intensities)) in
  totalWorkVolume <- weightedVolume of_Z durations intensities zero ;;
  Ok {| totalActiveTime := totalActiveTime;
        workRestRatio := workRestRatio;
        consistencyScore := consistencyScore;
        trainingDensityScore := trainingDensityScore;
        averageIntensity := averageIntensity;
        totalWorkVolume := totalWorkVolume;
        totalSets := totalSets |}.

End TennisAnalyzer.

Import TennisAnalyzer.

(** ** The clamp [std::max(0.0, std::min(1.0, x))] *)

Definition clamp01 (x : double) : double := max zero (min one x).

(** [r] lies in the closed interval from 0.0 to 1.0. *)
Definition in_unit_interval (r : double) : Prop :=
  leb zero r = true /\ leb r one = true.

(** What the specification calls [x] clamped to the unit interval: 0.0 below
    it, 1.0 above it, and a value equal to [x] (as [==] compares doubles)
    inside it; the result always lies in the interval. *)
Definition clamped_to_unit_interval (x r : double) : Prop :=
  in_unit_interval r /\
  (ltb x zero = true -> r = zero) /\
  (ltb one x = true -> r = one) /\
  (leb zero x = true -> leb x one = true -> eqb r x = true).

(** ** Vocabulary of the specification *)

(** The closed ranges of the specification, with the comparisons of doubles. *)
Definition in_duration_range (d : double) : bool :=
  leb MIN_DURATION d && leb d MAX_DURATION.

Definition in_intensity_range (i : Z) : bool :=
  (MIN_INTENSITY <=? i)%Z && (i <=? MAX_INTENSITY)%Z.

Definition outside_duration_range (d : double) : bool :=
  ltb d MIN_DURATION || ltb MAX_DURATION d.

Definition outside_intensity_range (i : Z) : bool :=
  (i <? MIN_INTENSITY)%Z || (MAX_INTENSITY <? i)%Z.

Definition valid_input (durations : list double) (intensities : list Z) : Prop :=
  List.length durations = List.length intensities /\
  Forall (fun d => in_duration_range d = true) durations /\
  Forall (fun i => in_intensity_range i = true) intensities.

(** The two error kinds of the specification are both thrown as
    [std::invalid_argument]; the message tells them apart. *)
Definition SizeMismatchError (e : exception) : Prop :=
  e = invalid_argument size_mismatch_message \/
  e = invalid_argument rest_size_message.


(** A rest vector that [calculateWorkRestRatio] accepts for [durations]. *)
Definition accepted_rest (durations restDurations : list double) : Prop :=
  restDurations = [] \/
  List.length restDurations = List.length durations \/
  List.length restDurations = (List.length durations - 1)%nat.

(** Total rest: the sum of the rest durations, or the total work when none
    is given. *)
Definition totalRestOf (durations restDurations : list double) : double :=
  match restDurations with
  | [] => accumulate id durations
  | _ => accumulate id restDurations
  end.

(** The weighted sum of the two inverse coefficients of variation, before
    it is clamped. *)
Definition consistencyFormula (durations : list double) (intensities : list Z) : double :=
  (lit_0_6 * (one / (one + coefficientOfVariation durations))
   + lit_0_4 * (one / (one + coefficientOfVariation (map of_Z intensities))))%D.

(** The standard deviations of the specification, written from its words
    and not from the functions of the analyzer: the sum of a sequence, its
    arithmetic mean, the sum of the squared deviations from that mean, and
    the square root of that sum divided by [n - 1] (sample) or by [n]
    (population). *)
Definition sumOf (values : list double) : double := fold_left add values zero.

Definition arithmeticMean (values : list double) : double :=
  (sumOf values / of_Z (Z.of_nat (List.length values)))%D.

Definition squaredDeviations (values : list double) : double :=
  sumOf (map (fun v => (v - arithmeticMean values) * (v - arithmeticMean values))%D
             values).

Definition sampleStandardDeviation (values : list double) : double :=
  sqrt (squaredDeviations values / of_Z (Z.of_nat (List.length values) - 1))%D.

Definition populationStandardDeviation (values : list double) : double :=
  sqrt (squaredDeviations values / of_Z (Z.of_nat (List.length values)))%D.

(** The square root of 32/7, rounded to binary64: 2.138089935299395. *)
Definition lit_sqrt_32_7 : double := S754_finite false 4814550517949482 (-51).

(** Doubles and vectors of doubles written with integer literals. *)
Definition dl (zs : list Z) : list double := map of_Z zs.

Definition lit_3_2 : double := S754_finite false 7205759403792794 (-51).

(** ** Exact values of doubles

    A non-negative double is an integer multiple of 2^-1074.  [scaled P x]
    is the value of [x] counted in units of 2^(-1074-P), with positive
    infinity standing above every finite double; [RN P n] rounds the
    integer [n], counted in the same units, to 53 significant bits, to
    nearest and ties to even, as binary64 arithmetic rounds. *)

Definition rne (q r h : Z) : Z :=
  match 2 * r ?= h with
  | Lt => q
  | Gt => q + 1
  | Eq => if Z.even q then q else q + 1
  end.

Definition shift_of (P n : Z) : Z := Z.max (Z.log2 n + 1 - 53) P.

Definition RN (P n : Z) : Z :=
  let h := 2 ^ shift_of P n in rne (n / h) (n mod h) h * h.

Definition scaled (P : Z) (x : double) : Z :=
  match x with
  | S754_zero _ => 0
  | S754_nan => 0
  | S754_infinity _ => 2 ^ (2098 + P)
  | S754_finite _ m e => Zpos m * 2 ^ (e + 1074 + P)
  end.

(** A double of the binary64 format that is at least 0.0 (so not NaN):
    [is_double x && leb zero x]. *)
Definition nonneg (x : double) : bool :=
  valid_binary 53 1024 x && SFleb (S754_zero false) x.

(** The last step of [binary_round_aux]: the second shift and the choice
    between zero, a finite double and infinity. *)
Definition finish (q e : Z) : double :=
  let '(mrs, e') := shr_fexp 53 1024 q e loc_Exact in
  match shr_m mrs with
  | Z0 => S754_zero false
  | Zpos m => if e' <=? 1024 - 53 then S754_finite false m e' else S754_infinity false
  | Zneg _ => S754_nan
  end.

(** [x < 0.0] is false: [x] is NaN, a zero of either sign, or positive. *)
Definition not_negative (x : double) : Prop := SFltb x (S754_zero false) = false.

(** The sign bit of [x] is clear, or [x] is NaN. *)
Definition sign_clear (x : double) : Prop :=
  match x with
  | S754_zero s | S754_infinity s | S754_finite s _ _ => s = false
  | S754_nan => True
  end.

(** A duration that validation is meant for: a binary64 value in the
    closed range from 0 to 86400. *)
Definition valid_duration (d : double) : bool :=
  is_double d && in_duration_range d.

(** ** Comparison of doubles *)

Section Comparison.

Lemma SFcompare_antisym (x y : double) :
  SFcompare y x = option_map CompOpp (SFcompare x y).
Proof.
  destruct x as [sx|sx| |sx mx ex], y as [sy|sy| |sy my ey];
    try destruct sx; try destruct sy; try reflexivity;
    cbn [SFcompare option_map];
    rewrite (Z.compare_antisym ex ey);
    change (Pos.compare_cont Eq my mx) with (Pos.compare_cont (CompOpp Eq) my mx);
    rewrite <- (Pos.compare_cont_antisym mx my Eq);
    destruct (ex ?= ey)%Z; cbn [CompOpp]; try reflexivity;
    destruct (Pos.compare_cont Eq mx my); reflexivity.
Qed.

Lemma SFcompare_refl (x : double) :
  x <> nan -> SFcompare x x = Some Eq.
Proof.
  destruct x as [s|s| |s m e]; intros H;
    try (destruct s; reflexivity); try (elim H; reflexivity).
  destruct s; cbn [SFcompare];
    rewrite Z.compare_refl, Pos.compare_cont_refl; reflexivity.
Qed.

Lemma ltb_leb (x y : double) : ltb x y = true -> leb x y = true.
Proof.
  unfold ltb, leb, SFltb, SFleb.
  destruct (SFcompare x y) as [[]|]; congruence.
Qed.

Lemma leb_not_gtb (x y : double) : leb x y = true -> ltb y x = false.
Proof.
  unfold ltb, leb, SFltb, SFleb. rewrite (SFcompare_antisym x y).
  destruct (SFcompare x y) as [[]|]; simpl; congruence.
Qed.

Lemma leb_not_ltb_eq (x y : double) :
  leb x y = true -> ltb x y = false -> SFcompare x y = Some Eq.
Proof.
  unfold ltb, leb, SFltb, SFleb.
  destruct (SFcompare x y) as [[]|]; congruence.
Qed.

Lemma eqb_sym (x y : double) : eqb x y = eqb y x.
Proof.
  unfold eqb, SFeqb. rewrite (SFcompare_antisym y x).
  destruct (SFcompare y x) as [[]|]; reflexivity.
Qed.

Lemma ltb_zero_EPSILON (x : double) : ltb x zero = true -> ltb x EPSILON = true.
Proof.
  destruct x as [s|s| |s m e]; try destruct s; simpl; try reflexivity; discriminate.
Qed.

End Comparison.

Lemma clamp01_in_unit_interval (x : double) : in_unit_interval (clamp01 x).
Proof.
  unfold clamp01, max, min, in_unit_interval.
  destruct (ltb x one) eqn:H1.
  - destruct (ltb zero x) eqn:H0.
    + split; apply ltb_leb; assumption.
    + split; reflexivity.
  - split; reflexivity.
Qed.

Lemma clamp01_clamped (x : double) : clamped_to_unit_interval x (clamp01 x).
Proof.
  split; [apply clamp01_in_unit_interval|].
  unfold clamp01, max, min.
  split; [|split].
  - intros Hx.
    assert (Hx1 : ltb x one = true)
      by (destruct x as [s|s| |s m e]; try destruct s; simpl in *; try reflexivity; discriminate).
    rewrite Hx1.
    assert (H0 : ltb zero x = false)
      by (apply leb_not_gtb, ltb_leb; assumption).
    rewrite H0. reflexivity.
  - intros Hx.
    assert (Hx1 : ltb x one = false)
      by (apply leb_not_gtb, ltb_leb; assumption).
    rewrite Hx1. reflexivity.
  - intros H0 H1.
    destruct (ltb x one) eqn:Hlt.
    + destruct (ltb zero x) eqn:Hgt.
      * unfold eqb, SFeqb. rewrite SFcompare_refl; [reflexivity|].
        intros ->. discriminate.
      * unfold eqb, SFeqb.
        rewrite (leb_not_ltb_eq zero x H0 Hgt). reflexivity.
    + replace (ltb zero one) with true by reflexivity.
      rewrite eqb_sym. unfold eqb, SFeqb.
      rewrite (leb_not_ltb_eq x one H1 Hlt). reflexivity.
Qed.

(** ** Validation *)

Section Validation.

Lemma in_range_not_outside (d : double) :
  in_duration_range d = true -> outside_duration_range d = false.
Proof.
  unfold in_duration_range, outside_duration_range.
  intros H. apply andb_true_iff in H as [Hlo Hhi].
  rewrite (leb_not_gtb _ _ Hlo), (leb_not_gtb _ _ Hhi). reflexivity.
Qed.

Lemma in_intensity_not_outside (i : Z) :
  in_intensity_range i = true -> outside_intensity_range i = false.
Proof.
  unfold in_intensity_range, outside_intensity_range, MIN_INTENSITY, MAX_INTENSITY.
  intros H. apply andb_true_iff in H as [Hlo Hhi].
  apply Z.leb_le in Hlo. apply Z.leb_le in Hhi.
  apply orb_false_iff. split; apply Z.ltb_ge; lia.
Qed.

Lemma checkDurations_ok (ds : list double) (i0 : nat) :
  Forall (fun d => outside_duration_range d = false) ds ->
  checkDurations i0 ds = Ok tt.
Proof.
  intros H. revert i0.
  induction H as [|d ds Hd _ IH]; intros i0; [reflexivity|].
  cbn [checkDurations]. unfold outside_duration_range in Hd.
  rewrite Hd. apply IH.
Qed.

Lemma checkIntensities_ok (xs : list Z) (i0 : nat) :
  Forall (fun i => outside_intensity_range i = false) xs ->
  checkIntensities i0 xs = Ok tt.
Proof.
  intros H. revert i0.
  induction H as [|x xs Hx _ IH]; intros i0; [reflexivity|].
  cbn [checkIntensities]. unfold outside_intensity_range in Hx.
  rewrite Hx. apply IH.
Qed.




Lemma valid_input_validates (ds : list double) (xs : list Z) :
  valid_input ds xs -> validateInputs ds xs = Ok tt.
Proof.
  intros (Hlen & Hd & Hi). unfold validateInputs.
  rewrite Hlen, Nat.eqb_refl. cbn [negb].
  rewrite checkDurations_ok.
  - cbn [bind]. apply checkIntensities_ok.
    eapply Forall_impl; [|exact Hi]. apply in_intensity_not_outside.
  - eapply Forall_impl; [|exact Hd]. apply in_range_not_outside.
Qed.

Lemma validateInputs_same_size (ds : list double) (xs : list Z) :
  validateInputs ds xs = Ok tt -> List.length ds = List.length xs.
Proof.
  unfold validateInputs.
  destruct (List.length ds =? List.length xs)%nat eqn:E; [|discriminate].
  intros _. apply Nat.eqb_eq. assumption.
Qed.

Lemma analyze_validates_first (ds : list double) (xs : list Z) (rs : list double)
    (e : exception) :
  validateInputs ds xs = Throw e -> analyze ds xs rs = Throw e.
Proof.
  intros H. unfold analyze. rewrite H. reflexivity.
Qed.

End Validation.




(** A NaN duration is neither below 0 nor above 86400: validation lets it
    through. *)
Lemma validateInputs_nan : validateInputs [nan] [3] = Ok tt.
Proof. reflexivity. Qed.

(** ** Work to rest ratio *)

Section WorkRestRatio.

Lemma rest_size_rejected (ds rs : list double) :
  ds <> [] -> rs <> [] ->
  List.length rs <> List.length ds ->
  List.length rs <> (List.length ds - 1)%nat ->
  calculateWorkRestRatio ds rs = Throw (invalid_argument rest_size_message).
Proof.
  intros Hds Hrs Hn Hg.
  destruct ds as [|d ds]; [congruence|].
  destruct rs as [|r rs]; [congruence|].
  unfold calculateWorkRestRatio.
  apply Nat.eqb_neq in Hn. rewrite Hn.
  assert (Hgap : (List.length (r :: rs) =?
                  (if (1 <? List.length (d :: ds))%nat
                   then (List.length (d :: ds) - 1)%nat else 0%nat))%nat = false).
  { apply Nat.eqb_neq. destruct (1 <? List.length (d :: ds))%nat.
    - assumption.
    - simpl. discriminate. }
  rewrite Hgap. reflexivity.
Qed.

Lemma rest_size_accepted (ds rs : list double) :
  ds <> [] -> accepted_rest ds rs ->
  calculateWorkRestRatio ds rs =
  Ok (if ltb (totalRestOf ds rs) EPSILON then infinity
      else div (accumulate id ds) (totalRestOf ds rs)).
Proof.
  intros Hds Hacc.
  destruct ds as [|d ds]; [congruence|].
  unfold calculateWorkRestRatio, calculateTotalActiveTime, totalRestOf.
  destruct rs as [|r rs].
  - cbn [bind]. destruct (ltb _ EPSILON); reflexivity.
  - assert (Hsize :
      (negb (List.length (r :: rs) =? List.length (d :: ds))%nat &&
       negb (List.length (r :: rs) =?
             (if (1 <? List.length (d :: ds))%nat
              then (List.length (d :: ds) - 1)%nat else 0%nat))%nat) = false).
    { destruct Hacc as [Hacc|[Hacc|Hacc]]; [discriminate| |].
      - apply Nat.eqb_eq in Hacc. rewrite Hacc. reflexivity.
      - assert (H1 : (1 <? List.length (d :: ds))%nat = true).
        { apply Nat.ltb_lt. simpl in Hacc |- *. lia. }
        rewrite H1. apply Nat.eqb_eq in Hacc. rewrite Hacc.
        apply andb_false_r. }
    rewrite Hsize. cbn [bind]. destruct (ltb _ EPSILON); reflexivity.
Qed.

End WorkRestRatio.

(** C3, as the code has it: for non-empty durations, a non-empty rest vector
    whose length is neither the number of sets nor one less makes
    [calculateWorkRestRatio] throw the size-mismatch error; for empty
    durations it returns 0.0 whatever the rest vector is, without looking
    at it. *)
Theorem workRestRatio_size_mismatch (ds rs : list double) :
  (ds <> [] -> rs <> [] ->
   List.length rs <> List.length ds ->
   List.length rs <> (List.length ds - 1)%nat ->
   exists e, calculateWorkRestRatio ds rs = Throw e /\ SizeMismatchError e) /\
  calculateWorkRestRatio [] rs = Ok zero.
Proof.
  split; [|reflexivity].
  intros Hds Hrs Hn Hg. exists (invalid_argument rest_size_message).
  split; [apply rest_size_rejected; assumption | right; reflexivity].
Qed.

Lemma workRestRatio_size_mismatch_witness :
  (exists e, calculateWorkRestRatio (dl [300; 300; 300]) (dl [60]) = Throw e /\
             SizeMismatchError e) /\
  calculateWorkRestRatio [] (dl [60; 60]) = Ok zero.
Proof.
  split.
  - apply (proj1 (workRestRatio_size_mismatch (dl [300; 300; 300]) (dl [60])));
      simpl; discriminate.
  - apply (proj2 (workRestRatio_size_mismatch [] (dl [60; 60]))).
Defined.

(** C3 fails on empty durations: the early return gives 0.0 before the
    length of the rest vector is looked at. *)
Lemma workRestRatio_empty_durations_no_error :
  dl [60] <> [] /\
  List.length (dl [60]) <> List.length (@nil double) /\
  (Z.of_nat (List.length (dl [60])) <> Z.of_nat (List.length (@nil double)) - 1)%Z /\
  calculateWorkRestRatio [] (dl [60]) = Ok zero /\
  ~ (exists e, calculateWorkRestRatio [] (dl [60]) = Throw e /\ SizeMismatchError e).
Proof.
  repeat split; try discriminate.
  intros (e & H & _). discriminate.
Qed.

(** C5: for non-empty durations and an accepted rest vector, the ratio is
    positive infinity when the total rest is below 1e-9, and the total work
    divided by the total rest otherwise; the total rest of an empty rest
    vector is the total work, so two sets of 300 seconds give 1.0. *)
Theorem workRestRatio_value (ds rs : list double) :
  ds <> [] -> accepted_rest ds rs ->
  (ltb (totalRestOf ds rs) EPSILON = true ->
   calculateWorkRestRatio ds rs = Ok infinity) /\
  (ltb (totalRestOf ds rs) EPSILON = false ->
   calculateWorkRestRatio ds rs = Ok (div (accumulate id ds) (totalRestOf ds rs))) /\
  totalRestOf ds [] = accumulate id ds /\
  calculateWorkRestRatio (dl [300; 300]) [] = Ok one.
Proof.
  intros Hds Hacc. rewrite (rest_size_accepted ds rs Hds Hacc).
  repeat split.
  - intros ->. reflexivity.
  - intros ->. reflexivity.
Qed.

Lemma workRestRatio_value_witness :
  calculateWorkRestRatio (dl [300; 300]) (dl [0]) = Ok infinity /\
  calculateWorkRestRatio (dl [300; 300]) (dl [100; 100]) = Ok (of_Z 3).
Proof.
  split.
  - apply (proj1 (workRestRatio_value (dl [300; 300]) (dl [0])
                    ltac:(discriminate) ltac:(right; right; reflexivity))).
    reflexivity.
  - apply (proj1 (proj2 (workRestRatio_value (dl [300; 300]) (dl [100; 100])
                    ltac:(discriminate) ltac:(right; left; reflexivity)))).
    reflexivity.
Defined.

(** C10: the values of the rest vector are not range-checked; for non-empty
    durations and a rest vector of accepted length whose sum is negative, the
    ratio is positive infinity. *)
Theorem workRestRatio_negative_rest (ds rs : list double) :
  ds <> [] ->
  List.length rs = List.length ds \/ List.length rs = (List.length ds - 1)%nat ->
  ltb (accumulate id rs) zero = true ->
  calculateWorkRestRatio ds rs = Ok infinity.
Proof.
  intros Hds Hlen Hneg.
  assert (Hrs : rs <> []) by (intros ->; discriminate).
  rewrite (rest_size_accepted ds rs Hds (or_intror Hlen)).
  assert (Hrest : totalRestOf ds rs = accumulate id rs)
    by (destruct rs; [congruence|reflexivity]).
  rewrite Hrest, (ltb_zero_EPSILON _ Hneg). reflexivity.
Qed.

Lemma workRestRatio_negative_rest_witness :
  calculateWorkRestRatio (dl [300; 300]) (dl [-50; 20]) = Ok infinity.
Proof.
  apply workRestRatio_negative_rest.
  - discriminate.
  - left. reflexivity.
  - reflexivity.
Defined.

(** ** The two scores *)

Section Scores.

Lemma weightedVolume_defined (weight : Z -> double) (ds : list double) :
  forall (xs : list Z) (acc : double),
  List.length ds = List.length xs ->
  exists v, weightedVolume weight ds xs acc = Ok v.
Proof.
  induction ds as [|d ds IH]; intros xs acc Hlen.
  - exists acc. reflexivity.
  - destruct xs as [|x xs]; [discriminate|].
    cbn [weightedVolume]. apply IH. simpl in Hlen. congruence.
Qed.

Lemma consistencyScore_in_unit_interval (ds : list double) (xs : list Z) :
  in_unit_interval (calculateConsistencyScore ds xs).
Proof.
  unfold calculateConsistencyScore.
  destruct (List.length ds <? 2)%nat.
  - split; reflexivity.
  - apply clamp01_in_unit_interval.
Qed.

Lemma densityScore_in_unit_interval (ds : list double) (xs : list Z) :
  List.length ds = List.length xs ->
  exists r, calculateTrainingDensityScore ds xs = Ok r /\ in_unit_interval r.
Proof.
  intros Hlen. unfold calculateTrainingDensityScore.
  destruct ds as [|d ds].
  - exists zero. repeat split.
  - destruct (weightedVolume_defined normalizeIntensity (d :: ds) xs zero Hlen)
      as [v Hv].
    rewrite Hv. cbn [bind].
    eexists. split; [reflexivity|]. apply clamp01_in_unit_interval.
Qed.

Lemma consistencyScore_formula (ds : list double) (xs : list Z) :
  (List.length ds <? 2)%nat = false ->
  calculateConsistencyScore ds xs = clamp01 (consistencyFormula ds xs).
Proof.
  intros H. unfold calculateConsistencyScore. rewrite H. reflexivity.
Qed.

Lemma fold_left_squares (m : double) (vs : list double) (acc : double) :
  fold_left (fun a value => let diff := sub value m in add a (mul diff diff)) vs acc =
  fold_left (fun a x => add a (mul (sub x m) (sub x m))) vs acc.
Proof. reflexivity. Qed.

End Scores.

(** C1: on every input that meets the three conditions of validation, the
    consistency score and the training-density score lie between 0.0 and
    1.0. *)
Theorem scores_in_unit_interval (ds : list double) (xs : list Z) :
  valid_input ds xs ->
  in_unit_interval (calculateConsistencyScore ds xs) /\
  exists r, calculateTrainingDensityScore ds xs = Ok r /\ in_unit_interval r.
Proof.
  intros (Hlen & _ & _). split.
  - apply consistencyScore_in_unit_interval.
  - apply densityScore_in_unit_interval. assumption.
Qed.

Lemma scores_in_unit_interval_witness :
  in_unit_interval (calculateConsistencyScore (dl [180; 240; 300]) [2; 3; 5]) /\
  exists r, calculateTrainingDensityScore (dl [180; 240; 300]) [2; 3; 5] = Ok r /\
            in_unit_interval r.
Proof.
  apply scores_in_unit_interval.
  split; [reflexivity|]. split; repeat constructor.
Defined.

(** C6: with fewer than two sets the consistency score is 1.0; otherwise it
    is the weighted sum 0.6 / (1 + CV of the durations) + 0.4 / (1 + CV of
    the intensities), clamped to the unit interval. *)
Theorem consistencyScore_value (ds : list double) (xs : list Z) :
  ((List.length ds < 2)%nat -> calculateConsistencyScore ds xs = one) /\
  ((2 <= List.length ds)%nat ->
   clamped_to_unit_interval (consistencyFormula ds xs)
                            (calculateConsistencyScore ds xs)).
Proof.
  split; intros H.
  - unfold calculateConsistencyScore.
    apply Nat.ltb_lt in H. rewrite H. reflexivity.
  - rewrite consistencyScore_formula by (apply Nat.ltb_ge; assumption).
    apply clamp01_clamped.
Qed.

Lemma consistencyScore_value_witness :
  calculateConsistencyScore (dl [86400]) [1] = one /\
  clamped_to_unit_interval (consistencyFormula (dl [180; 240]) [2; 3])
                           (calculateConsistencyScore (dl [180; 240]) [2; 3]).
Proof.
  split.
  - apply (proj1 (consistencyScore_value (dl [86400]) [1])). simpl. lia.
  - apply (proj2 (consistencyScore_value (dl [180; 240]) [2; 3])). simpl. lia.
Defined.

Lemma fold_add_map (f : double -> double) (vs : list double) (acc : double) :
  fold_left (fun a v => add a (f v)) vs acc = fold_left add (map f vs) acc.
Proof.
  revert acc. induction vs as [|v vs IH]; intros acc; [reflexivity|].
  cbn [fold_left map]. apply IH.
Qed.

Lemma mean_arithmetic (vs : list double) :
  vs <> [] -> mean vs = arithmeticMean vs.
Proof.
  intros Hne. destruct vs as [|v vs]; [congruence|].
  unfold mean, arithmeticMean, sumOf, accumulate.
  rewrite (fold_add_map id), map_id. reflexivity.
Qed.

(** C7: the standard deviation of fewer than two values is 0.0; of two or
    more it is the sample standard deviation: the square root of the sum
    of the squared deviations from the arithmetic mean, divided by
    [n - 1].  That is not the population standard deviation, which divides
    by [n]: on 2, 4, 4, 4, 5, 5, 7, 9 (mean 5, squared deviations 32) the
    code returns the square root of 32/7, where dividing by 8 gives 2. *)
Theorem standardDeviation_sample (vs : list double) :
  ((List.length vs < 2)%nat -> standardDeviation vs = zero) /\
  ((2 <= List.length vs)%nat -> standardDeviation vs = sampleStandardDeviation vs) /\
  standardDeviation (dl [2; 4; 4; 4; 5; 5; 7; 9]) = lit_sqrt_32_7 /\
  populationStandardDeviation (dl [2; 4; 4; 4; 5; 5; 7; 9]) = of_Z 2 /\
  standardDeviation (dl [2; 4; 4; 4; 5; 5; 7; 9])
    <> populationStandardDeviation (dl [2; 4; 4; 4; 5; 5; 7; 9]).
Proof.
  split; [|split; [|split; [|split]]].
  - intros H. unfold standardDeviation.
    apply Nat.ltb_lt in H. rewrite H. reflexivity.
  - intros H. unfold standardDeviation, sampleStandardDeviation, squaredDeviations.
    assert (Hlt : (List.length vs <? 2)%nat = false) by (apply Nat.ltb_ge; assumption).
    assert (Hne : vs <> []) by (intros ->; simpl in H; lia).
    rewrite Hlt, (mean_arithmetic vs Hne). cbv zeta.
    rewrite (fold_add_map
               (fun v => mul (sub v (arithmeticMean vs)) (sub v (arithmeticMean vs)))).
    rewrite Nat2Z.inj_sub by lia. reflexivity.
  - vm_compute. reflexivity.
  - vm_compute. reflexivity.
  - vm_compute. discriminate.
Qed.

Lemma standardDeviation_sample_witness :
  standardDeviation (dl [7]) = zero /\
  standardDeviation (dl [1; 3]) = sampleStandardDeviation (dl [1; 3]).
Proof.
  split.
  - apply (proj1 (standardDeviation_sample (dl [7]))). simpl. lia.
  - apply (proj1 (proj2 (standardDeviation_sample (dl [1; 3])))). simpl. lia.
Defined.

(** ** The full analysis on concrete sessions *)

(** C4, as the code has it: on empty durations and intensities [analyze]
    throws nothing, whatever the rest durations are, and returns no sets,
    total active time 0.0, work/rest ratio 0.0, training density 0.0, total
    work volume 0.0 and, by the rule for fewer than two sets, consistency
    score 1.0. *)
Theorem analyze_empty (rs : list double) :
  exists r, analyze [] [] rs = Ok r /\
    totalSets r = 0%nat /\
    totalActiveTime r = zero /\
    workRestRatio r = zero /\
    trainingDensityScore r = zero /\
    totalWorkVolume r = zero /\
    consistencyScore r = one.
Proof.
  eexists. split; [reflexivity|]. repeat split.
Qed.

(** C4 fails: the metrics of the empty session are not all zero.  The
    consistency score is 1.0 and the average intensity, 0.0 / 0.0, is NaN. *)
Lemma analyze_empty_not_all_zero :
  (exists r, analyze [] [] [] = Ok r /\
             consistencyScore r = one /\ averageIntensity r = nan) /\
  ~ (exists r, analyze [] [] [] = Ok r /\
       totalSets r = 0%nat /\
       totalActiveTime r = zero /\
       workRestRatio r = zero /\
       consistencyScore r = zero /\
       trainingDensityScore r = zero /\
       averageIntensity r = zero /\
       totalWorkVolume r = zero).
Proof.
  split.
  - eexists. split; [reflexivity|]. split; reflexivity.
  - intros (r & Hr & _ & _ & _ & Hc & _ & Ha & _).
    vm_compute in Hr. injection Hr as <-.
    discriminate Ha.
Qed.

(** C8, as the code has it: the session of five sets is analysed without
    error, with total active time 1140.0, average intensity 3.2 and total
    work volume 3900.0, the sum of the products of duration and intensity. *)
Theorem analyze_five_sets :
  exists r, analyze (dl [180; 240; 300; 240; 180]) [2; 3; 5; 4; 2] [] = Ok r /\
    totalActiveTime r = of_Z 1140 /\
    averageIntensity r = lit_3_2 /\
    totalWorkVolume r = of_Z 3900 /\
    (180 * 2 + 240 * 3 + 300 * 5 + 240 * 4 + 180 * 2 = 3900)%Z.
Proof.
  eexists. split; [vm_compute; reflexivity|]. repeat split.
Qed.

(** C8 fails on the total work volume: it is 3900.0, not 3620.0. *)
Lemma analyze_five_sets_not_3620 :
  ~ (exists r, analyze (dl [180; 240; 300; 240; 180]) [2; 3; 5; 4; 2] [] = Ok r /\
       totalActiveTime r = of_Z 1140 /\
       averageIntensity r = lit_3_2 /\
       totalWorkVolume r = of_Z 3620).
Proof.
  intros (r & Hr & _ & _ & Hw).
  vm_compute in Hr. injection Hr as <-.
  vm_compute in Hw. discriminate Hw.
Qed.

(** The literals of the source and of the scenarios are the values that
    binary64 hardware arithmetic gives them. *)
Lemma literals_are_binary64 :
  Prim2SF 0.2 = lit_0_2 /\ Prim2SF 0.4 = lit_0_4 /\ Prim2SF 0.6 = lit_0_6 /\
  Prim2SF 30 = lit_30 /\ Prim2SF 1800 = lit_1800 /\ Prim2SF 3600 = lit_3600 /\
  Prim2SF 86400 = MAX_DURATION /\ Prim2SF 1e-9 = EPSILON /\
  Prim2SF 1 = one /\ Prim2SF 3.2 = lit_3_2 /\
  Prim2SF 1140 = of_Z 1140 /\ Prim2SF 3900 = of_Z 3900 /\ Prim2SF 3620 = of_Z 3620.
Proof. vm_compute. repeat split. Qed.

(** ** Rounding of sums and products

    Addition and multiplication of non-negative doubles, described on
    exact values: the result is the rounding of the exact sum or product,
    and rounding is monotone. *)

Module Rounding.

Lemma rne_bounds q r h : q <= rne q r h <= q + 1.
Proof.
  unfold rne. destruct (2 * r ?= h); [destruct (Z.even q)| |]; lia.
Qed.

Lemma rne_mono_r q r1 r2 h : r1 <= r2 -> rne q r1 h <= rne q r2 h.
Proof.
  intros H. unfold rne.
  destruct (Z.compare_spec (2 * r1) h), (Z.compare_spec (2 * r2) h);
    try destruct (Z.even q); lia.
Qed.

Lemma RN_same_shift P n1 n2 :
  0 <= n1 <= n2 -> shift_of P n1 = shift_of P n2 -> 0 <= shift_of P n1 ->
  RN P n1 <= RN P n2.
Proof.
  intros Hn Hs Hpos. unfold RN. rewrite <- Hs.
  set (h := 2 ^ shift_of P n1).
  assert (Hh : 0 < h) by (apply Z.pow_pos_nonneg; lia).
  apply Z.mul_le_mono_nonneg_r; [lia|].
  assert (Hq : n1 / h <= n2 / h) by (apply Z.div_le_mono; lia).
  destruct (Z.eq_dec (n1 / h) (n2 / h)) as [E|E].
  - rewrite <- E. apply rne_mono_r.
    pose proof (Z.div_mod n1 h ltac:(lia)). pose proof (Z.div_mod n2 h ltac:(lia)).
    rewrite <- E in *. lia.
  - pose proof (rne_bounds (n1 / h) (n1 mod h) h).
    pose proof (rne_bounds (n2 / h) (n2 mod h) h). lia.
Qed.

Lemma RN_lower P n :
  0 <= P -> 0 < n -> P < shift_of P n -> 2 ^ Z.log2 n <= RN P n.
Proof.
  intros HP Hn Hs. unfold RN.
  set (s := shift_of P n) in *.
  assert (Es : s = Z.log2 n + 1 - 53) by (unfold s, shift_of in *; lia).
  assert (Hh : 0 < 2 ^ s) by (apply Z.pow_pos_nonneg; lia).
  pose proof (rne_bounds (n / 2 ^ s) (n mod 2 ^ s) (2 ^ s)) as Hb.
  assert (Hq : 2 ^ 52 <= n / 2 ^ s).
  { apply Z.div_le_lower_bound; [lia|].
    rewrite <- Z.pow_add_r by lia.
    replace (s + 52) with (Z.log2 n) by lia.
    apply Z.log2_spec. lia. }
  replace (Z.log2 n) with (52 + s) by lia.
  rewrite Z.pow_add_r by lia.
  apply Z.mul_le_mono_nonneg_r; lia.
Qed.

Lemma RN_upper P n :
  0 <= P -> 0 < n -> RN P n <= 2 ^ (53 + shift_of P n).
Proof.
  intros HP Hn. unfold RN.
  set (s := shift_of P n) in *.
  assert (Hs : 0 <= s /\ Z.log2 n + 1 - 53 <= s) by (unfold s, shift_of; lia).
  assert (Hh : 0 < 2 ^ s) by (apply Z.pow_pos_nonneg; lia).
  pose proof (rne_bounds (n / 2 ^ s) (n mod 2 ^ s) (2 ^ s)) as Hb.
  assert (Hq : n / 2 ^ s < 2 ^ 53).
  { apply Z.div_lt_upper_bound; [lia|].
    rewrite <- Z.pow_add_r by lia.
    apply Z.lt_le_trans with (2 ^ (Z.log2 n + 1)).
    - apply Z.log2_spec. lia.
    - apply Z.pow_le_mono_r; lia. }
  rewrite Z.pow_add_r by lia.
  apply Z.mul_le_mono_nonneg_r; lia.
Qed.

Lemma RN_mono P n1 n2 : 0 <= P -> 0 < n1 <= n2 -> RN P n1 <= RN P n2.
Proof.
  intros HP Hn.
  assert (Hlog : Z.log2 n1 <= Z.log2 n2) by (apply Z.log2_le_mono; lia).
  destruct (Z.eq_dec (shift_of P n1) (shift_of P n2)) as [E|E].
  - apply RN_same_shift; [lia|assumption|unfold shift_of; lia].
  - assert (Hlt : shift_of P n1 < shift_of P n2) by (unfold shift_of in *; lia).
    apply Z.le_trans with (2 ^ (53 + shift_of P n1)).
    + apply RN_upper; lia.
    + apply Z.le_trans with (2 ^ Z.log2 n2).
      * apply Z.pow_le_mono_r; [lia|]. unfold shift_of in *. lia.
      * apply RN_lower; [lia|lia|]. unfold shift_of in *. lia.
Qed.

(** digits and shifts *)

Lemma digits2_pos_bounds (m : positive) :
  2 ^ (Zpos (digits2_pos m) - 1) <= Zpos m < 2 ^ Zpos (digits2_pos m).
Proof.
  induction m as [m IH|m IH|]; cbn [digits2_pos].
  - rewrite Pos2Z.inj_succ, (Pos2Z.inj_xI m).
    replace (Z.succ (Zpos (digits2_pos m)) - 1) with (Z.succ (Zpos (digits2_pos m) - 1)) by lia.
    rewrite !Z.pow_succ_r by lia. lia.
  - rewrite Pos2Z.inj_succ, (Pos2Z.inj_xO m).
    replace (Z.succ (Zpos (digits2_pos m)) - 1) with (Z.succ (Zpos (digits2_pos m) - 1)) by lia.
    rewrite !Z.pow_succ_r by lia. lia.
  - simpl. lia.
Qed.

Lemma log2_digits2_pos (m : positive) :
  Z.log2 (Zpos m) = Zpos (digits2_pos m) - 1.
Proof.
  apply Z.log2_unique; [lia|].
  replace (Z.succ (Zpos (digits2_pos m) - 1)) with (Zpos (digits2_pos m)) by lia.
  apply digits2_pos_bounds.
Qed.

Lemma iter_pos_nat {A : Type} (f : A -> A) (p : positive) (x : A) :
  iter_pos f p x = Nat.iter (Pos.to_nat p) f x.
Proof.
  revert x. induction p as [p IH|p IH|]; intros x; cbn [iter_pos].
  - rewrite !IH, Pos2Nat.inj_xI.
    replace (S (2 * Pos.to_nat p)) with (Pos.to_nat p + S (Pos.to_nat p))%nat by lia.
    rewrite Nat.iter_add, Nat.iter_succ_r. reflexivity.
  - rewrite !IH, Pos2Nat.inj_xO.
    replace (2 * Pos.to_nat p)%nat with (Pos.to_nat p + Pos.to_nat p)%nat by lia.
    rewrite Nat.iter_add. reflexivity.
  - reflexivity.
Qed.

Lemma shr_1_nonneg (m : Z) (r s : bool) :
  0 <= m ->
  shr_1 (Build_shr_record m r s) = Build_shr_record (m / 2) (Z.odd m) (r || s).
Proof.
  intros Hm. rewrite <- Z.div2_div.
  destruct m as [|[p|p|]|p]; try reflexivity. lia.
Qed.

Lemma shr_1_iter (M : Z) (k : nat) :
  0 <= M ->
  Nat.iter (S k) shr_1 (Build_shr_record M false false) =
  Build_shr_record (M / 2 ^ (Z.of_nat k + 1))
                   (Z.odd (M / 2 ^ Z.of_nat k))
                   (negb (M mod 2 ^ Z.of_nat k =? 0)).
Proof.
  intros HM. induction k as [|k IH].
  - cbn [Nat.iter nat_rect]. rewrite shr_1_nonneg by assumption.
    change (2 ^ Z.of_nat 0) with 1. change (2 ^ (Z.of_nat 0 + 1)) with 2.
    rewrite Z.div_1_r, Z.mod_1_r. reflexivity.
  - change (Nat.iter (S (S k)) shr_1 ?x) with (shr_1 (Nat.iter (S k) shr_1 x)).
    rewrite IH.
    assert (Hp : 0 < 2 ^ Z.of_nat k) by (apply Z.pow_pos_nonneg; lia).
    rewrite shr_1_nonneg by (apply Z.div_pos; [lia|apply Z.pow_pos_nonneg; lia]).
    rewrite Z.div_div by lia.
    rewrite Nat2Z.inj_succ.
    replace (2 ^ (Z.of_nat k + 1) * 2) with (2 ^ (Z.succ (Z.of_nat k) + 1))
      by (rewrite !Z.pow_add_r, Z.pow_succ_r by lia; lia).
    replace (Z.of_nat k + 1) with (Z.succ (Z.of_nat k)) by lia.
    f_equal.
    rewrite Z.pow_succ_r by lia.
    rewrite (Z.mul_comm 2), Z.rem_mul_r by lia.
    rewrite (Zmod_odd (M / 2 ^ Z.of_nat k)).
    pose proof (Z.mod_pos_bound M (2 ^ Z.of_nat k) Hp).
    destruct (Z.odd (M / 2 ^ Z.of_nat k));
      destruct (Z.eqb_spec (M mod 2 ^ Z.of_nat k) 0) as [E1|E1];
      match goal with |- context [?a =? 0] => destruct (Z.eqb_spec a 0) as [E2|E2] end;
      cbn; try reflexivity; exfalso; lia.
Qed.

Lemma rne_scale (q r h c : Z) : 0 < c -> rne q (r * c) (h * c) = rne q r h.
Proof.
  intros Hc. unfold rne.
  destruct (Z.compare_spec (2 * (r * c)) (h * c)), (Z.compare_spec (2 * r) h);
    try reflexivity; exfalso; nia.
Qed.

Lemma shr_round (M E n : Z) :
  0 <= M -> 0 <= n ->
  round_nearest_even (shr_m (fst (shr (Build_shr_record M false false) E n)))
                     (loc_of_shr_record (fst (shr (Build_shr_record M false false) E n)))
  = rne (M / 2 ^ n) (M mod 2 ^ n) (2 ^ n)
  /\ snd (shr (Build_shr_record M false false) E n) = E + n.
Proof.
  intros HM Hn. destruct n as [|p|p]; [| |lia].
  - cbn [shr fst snd shr_m loc_of_shr_record round_nearest_even].
    change (2 ^ 0) with 1. rewrite Z.div_1_r, Z.mod_1_r. split; [reflexivity|lia].
  - cbn [shr fst snd]. split; [|reflexivity].
    rewrite iter_pos_nat.
    destruct (Pos2Nat.is_succ p) as [k Hk]. rewrite Hk.
    rewrite shr_1_iter by assumption.
    assert (Ep : Zpos p = Z.of_nat k + 1) by lia.
    rewrite Ep. cbn [shr_m loc_of_shr_record].
    set (h := 2 ^ Z.of_nat k).
    assert (Hh : 0 < h) by (apply Z.pow_pos_nonneg; lia).
    replace (2 ^ (Z.of_nat k + 1)) with (h * 2)
      by (unfold h; rewrite Z.pow_add_r by lia; reflexivity).
    rewrite Z.rem_mul_r by lia.
    rewrite (Zmod_odd (M / h)).
    pose proof (Z.mod_pos_bound M h Hh) as Hr.
    unfold rne.
    destruct (Z.odd (M / h)); destruct (Z.eqb_spec (M mod h) 0) as [E0|E0];
      cbn [negb round_nearest_even];
      match goal with |- context [?a ?= ?b] => destruct (Z.compare_spec a b) end;
      try reflexivity; exfalso; lia.
Qed.

Lemma fexp_eq (e : Z) : fexp 53 1024 e = Z.max (e - 53) (-1074).
Proof. reflexivity. Qed.

Lemma finish_spec (q e : Z) :
  0 <= q <= 2 ^ 53 -> -1074 <= e ->
  (q < 2 ^ 53 -> fexp 53 1024 (Zdigits2 q + e) = e) ->
  nonneg (finish q e) = true /\
  forall P, 0 <= P ->
    scaled P (finish q e) = Z.min (q * 2 ^ (e + 1074 + P)) (2 ^ (2098 + P)).
Proof.
  intros Hq He Hcanon.
  destruct (Z.eq_dec q (2 ^ 53)) as [Etop|Ntop].
  - (* the mantissa was rounded up to the next power of two *)
    subst q. unfold finish, shr_fexp.
    replace (fexp 53 1024 (Zdigits2 (2 ^ 53) + e) - e) with 1
      by (change (Zdigits2 (2 ^ 53)) with 54; rewrite fexp_eq; lia).
    change (shr (shr_record_of_loc (2 ^ 53) loc_Exact) e 1)
      with (Build_shr_record (2 ^ 52) false false, e + 1).
    cbn [shr_m]. change (2 ^ 52) with (Zpos (2 ^ 52)).
    cbv iota beta.
    destruct (Z.leb_spec (e + 1) (1024 - 53)) as [Hle|Hgt].
    + split.
      * unfold nonneg. cbn [valid_binary SFleb SFcompare].
        unfold bounded, canonical_mantissa.
        change (Zpos (digits2_pos (2 ^ 52))) with 53. rewrite fexp_eq.
        rewrite andb_true_r. apply andb_true_iff. split; [apply Z.eqb_eq|apply Z.leb_le]; lia.
      * intros P HP. cbn [scaled].
        replace (e + 1 + 1074 + P) with (1 + (e + 1074 + P)) by lia.
        rewrite Z.pow_add_r by lia.
        change (Zpos (2 ^ 52) * (2 ^ 1 * 2 ^ (e + 1074 + P)))
          with (2 ^ 52 * (2 * 2 ^ (e + 1074 + P))).
        replace (2 ^ 52 * (2 * 2 ^ (e + 1074 + P))) with (2 ^ 53 * 2 ^ (e + 1074 + P))
          by (change (2 ^ 53) with (2 ^ 52 * 2); ring).
        rewrite <- Z.pow_add_r by lia.
        rewrite Z.min_l; [reflexivity|]. apply Z.pow_le_mono_r; lia.
    + split.
      * reflexivity.
      * intros P HP. cbn [scaled].
        rewrite <- Z.pow_add_r by lia.
        rewrite Z.min_r; [reflexivity|]. apply Z.pow_le_mono_r; lia.
  - assert (Hlt : q < 2 ^ 53) by lia. specialize (Hcanon Hlt).
    unfold finish, shr_fexp. rewrite Hcanon, Z.sub_diag.
    cbn [shr shr_record_of_loc shr_m].
    destruct q as [|m|m]; [| |lia].
    + split; [reflexivity|].
      intros P HP. cbn [scaled]. rewrite Z.mul_0_l.
      rewrite Z.min_l; [reflexivity|]. apply Z.pow_nonneg. lia.
    + cbn [Zdigits2] in Hcanon.
      pose proof (digits2_pos_bounds m) as Hd.
      rewrite fexp_eq in Hcanon.
      assert (HD : Zpos (digits2_pos m) <= 53).
      { destruct (Z.le_gt_cases (Zpos (digits2_pos m)) 53) as [H|H]; [assumption|].
        exfalso.
        assert (2 ^ 53 <= 2 ^ (Zpos (digits2_pos m) - 1)) by (apply Z.pow_le_mono_r; lia).
        lia. }
      destruct (Z.leb_spec e (1024 - 53)) as [Hle|Hgt].
      * split.
        -- unfold nonneg. cbn [valid_binary SFleb SFcompare].
           unfold bounded, canonical_mantissa. rewrite fexp_eq.
           rewrite andb_true_r. apply andb_true_iff.
           split; [apply Z.eqb_eq|apply Z.leb_le]; lia.
        -- intros P HP. cbn [scaled].
           rewrite Z.min_l; [reflexivity|].
           apply Z.le_trans with (2 ^ 53 * 2 ^ (e + 1074 + P)).
           ++ apply Z.mul_le_mono_nonneg_r; [apply Z.pow_nonneg|]; lia.
           ++ rewrite <- Z.pow_add_r by lia. apply Z.pow_le_mono_r; lia.
      * split; [reflexivity|].
        intros P HP. cbn [scaled].
        rewrite Z.min_r; [reflexivity|].
        assert (HD53 : Zpos (digits2_pos m) = 53) by lia.
        rewrite HD53 in Hd. 
        apply Z.le_trans with (2 ^ 52 * 2 ^ (e + 1074 + P)).
        ++ rewrite <- Z.pow_add_r by lia. apply Z.pow_le_mono_r; lia.
        ++ apply Z.mul_le_mono_nonneg_r; [apply Z.pow_nonneg|]; lia.
Qed.

Lemma Zdigits2_bounds (q : Z) :
  0 < q -> 2 ^ (Zdigits2 q - 1) <= q < 2 ^ Zdigits2 q.
Proof.
  destruct q as [|m|m]; try lia. intros _. apply digits2_pos_bounds.
Qed.

Lemma Zdigits2_le_53 (q : Z) : 0 <= q < 2 ^ 53 -> Zdigits2 q <= 53.
Proof.
  intros Hq. destruct (Z.eq_dec q 0) as [->|Hn]; [cbn; lia|].
  pose proof (Zdigits2_bounds q ltac:(lia)) as Hb.
  destruct (Z.le_gt_cases (Zdigits2 q) 53) as [H|H]; [assumption|exfalso].
  assert (2 ^ 53 <= 2 ^ (Zdigits2 q - 1)) by (apply Z.pow_le_mono_r; lia).
  lia.
Qed.

Lemma Zdigits2_ge_53 (q : Z) : 2 ^ 52 <= q -> 53 <= Zdigits2 q.
Proof.
  intros Hq.
  assert (H0 : 0 < q) by (pose proof (Z.pow_pos_nonneg 2 52); lia).
  pose proof (Zdigits2_bounds q H0) as Hb.
  destruct (Z.le_gt_cases 53 (Zdigits2 q)) as [H|H]; [assumption|exfalso].
  assert (0 <= Zdigits2 q) by (destruct q; cbn; lia).
  assert (2 ^ Zdigits2 q <= 2 ^ 52) by (apply Z.pow_le_mono_r; lia).
  lia.
Qed.

Lemma round_aux_finish (mx ex : Z) :
  binary_round_aux 53 1024 false mx ex loc_Exact =
  finish (round_nearest_even
            (shr_m (fst (shr (Build_shr_record mx false false) ex
                             (fexp 53 1024 (Zdigits2 mx + ex) - ex))))
            (loc_of_shr_record
               (fst (shr (Build_shr_record mx false false) ex
                         (fexp 53 1024 (Zdigits2 mx + ex) - ex)))))
         (snd (shr (Build_shr_record mx false false) ex
                   (fexp 53 1024 (Zdigits2 mx + ex) - ex))).
Proof.
  unfold binary_round_aux, finish, shr_fexp at 1. cbn [shr_record_of_loc].
  destruct (shr _ ex _) as [mrs e']. cbn [fst snd].
  destruct (shr_fexp 53 1024 _ e' loc_Exact) as [mrs' e'']. reflexivity.
Qed.

Lemma round_aux_spec (M : positive) (E P : Z) :
  0 <= P -> 0 <= E + 1074 + P ->
  E <= fexp 53 1024 (Zpos (digits2_pos M) + E) ->
  nonneg (binary_round_aux 53 1024 false (Zpos M) E loc_Exact) = true /\
  scaled P (binary_round_aux 53 1024 false (Zpos M) E loc_Exact) =
  Z.min (RN P (Zpos M * 2 ^ (E + 1074 + P))) (2 ^ (2098 + P)).
Proof.
  intros HP Ht Hn.
  rewrite round_aux_finish. cbn [Zdigits2].
  set (D := Zpos (digits2_pos M)) in *.
  set (n := fexp 53 1024 (D + E) - E).
  assert (Hn0 : 0 <= n) by (unfold n; lia).
  destruct (shr_round (Zpos M) E n ltac:(lia) Hn0) as [Hround He'].
  rewrite Hround, He'. clear Hround He'.
  pose proof (digits2_pos_bounds M) as HD. fold D in HD.
  assert (Efexp : fexp 53 1024 (D + E) = Z.max (D + E - 53) (-1074)) by apply fexp_eq.
  assert (Hpn : 0 < 2 ^ n) by (apply Z.pow_pos_nonneg; lia).
  set (q := Zpos M / 2 ^ n).
  set (q' := rne q (Zpos M mod 2 ^ n) (2 ^ n)).
  pose proof (rne_bounds q (Zpos M mod 2 ^ n) (2 ^ n)) as Hb. fold q' in Hb.
  assert (Hq0 : 0 <= q) by (apply Z.div_pos; lia).
  assert (Hq53 : q < 2 ^ 53).
  { apply Z.div_lt_upper_bound; [lia|]. rewrite <- Z.pow_add_r by lia.
    apply Z.lt_le_trans with (2 ^ D); [lia|].
    apply Z.pow_le_mono_r; unfold n; lia. }
  assert (Hnormal : -1074 < E + n -> 2 ^ 52 <= q).
  { intros Hnorm. assert (En : n = D - 53) by (unfold n; lia).
    apply Z.div_le_lower_bound; [lia|]. rewrite <- Z.pow_add_r by lia.
    replace (n + 52) with (D - 1) by lia. lia. }
  destruct (finish_spec q' (E + n)) as [Hpos Hval].
  - lia.
  - unfold n. lia.
  - intros Hlt. rewrite fexp_eq.
    pose proof (Zdigits2_le_53 q' ltac:(lia)) as Hle.
    destruct (Z.le_gt_cases (E + n) (-1074)) as [Hsub|Hnorm].
    + unfold n in *. lia.
    + pose proof (Zdigits2_ge_53 q' ltac:(specialize (Hnormal Hnorm); lia)). lia.
  - split; [exact Hpos|].
    rewrite (Hval P HP). f_equal.
    unfold RN.
    assert (Hs : shift_of P (Zpos M * 2 ^ (E + 1074 + P)) = n + (E + 1074 + P)).
    { unfold shift_of. rewrite Z.log2_mul_pow2 by lia.
      rewrite log2_digits2_pos. fold D. unfold n. lia. }
    rewrite Hs. cbv zeta.
    assert (Hpt : 0 < 2 ^ (E + 1074 + P)) by (apply Z.pow_pos_nonneg; lia).
    rewrite (Z.pow_add_r 2 n) by lia.
    rewrite Z.div_mul_cancel_r by lia.
    rewrite Z.mul_mod_distr_r by lia.
    rewrite rne_scale by lia.
    fold q. fold q'.
    replace (E + n + 1074 + P) with (n + (E + 1074 + P)) by lia.
    rewrite Z.pow_add_r by lia. reflexivity.
Qed.

(** order and scaled values *)

Lemma bounded_facts (m : positive) (e : Z) :
  bounded 53 1024 m e = true ->
  -1074 <= e <= 971 /\ Zpos (digits2_pos m) <= 53 /\
  (-1074 < e -> Zpos (digits2_pos m) = 53).
Proof.
  unfold bounded, canonical_mantissa. rewrite fexp_eq.
  intros H. apply andb_true_iff in H as [Hc He].
  apply Z.eqb_eq in Hc. apply Z.leb_le in He. lia.
Qed.

Lemma nonneg_finite (s : bool) (m : positive) (e : Z) :
  nonneg (S754_finite s m e) = true -> s = false /\ bounded 53 1024 m e = true.
Proof.
  unfold nonneg. cbn [valid_binary]. intros H.
  apply andb_true_iff in H as [Hb Hs]. destruct s; [discriminate|]. split; trivial.
Qed.

Lemma nonneg_infinity (s : bool) : nonneg (S754_infinity s) = true -> s = false.
Proof. destruct s; [discriminate|reflexivity]. Qed.

Lemma scaled_finite_bounds (P : Z) (m : positive) (e : Z) :
  0 <= P -> bounded 53 1024 m e = true ->
  0 < Zpos m * 2 ^ (e + 1074 + P) < 2 ^ (2098 + P).
Proof.
  intros HP Hb. apply bounded_facts in Hb as (He & HD & _).
  pose proof (digits2_pos_bounds m) as Hm.
  assert (Hp : 0 < 2 ^ (e + 1074 + P)) by (apply Z.pow_pos_nonneg; lia).
  split; [lia|].
  apply Z.lt_le_trans with (2 ^ 53 * 2 ^ (e + 1074 + P)).
  - apply Z.mul_lt_mono_pos_r; [assumption|].
    apply Z.lt_le_trans with (2 ^ Zpos (digits2_pos m)); [lia|].
    apply Z.pow_le_mono_r; lia.
  - rewrite <- Z.pow_add_r by lia. apply Z.pow_le_mono_r; lia.
Qed.

Lemma scaled_shift (P : Z) (x : spec_float) :
  0 <= P -> nonneg x = true -> scaled P x = scaled 0 x * 2 ^ P.
Proof.
  intros HP Hx. destruct x as [s|s| |s m e]; cbn [scaled].
  - reflexivity.
  - rewrite Z.add_0_r, Z.pow_add_r by lia. reflexivity.
  - reflexivity.
  - apply nonneg_finite in Hx as [_ Hb]. apply bounded_facts in Hb as (He & _).
    rewrite Z.add_0_r, Z.pow_add_r by lia. ring.
Qed.

Lemma scaled_nonneg (P : Z) (x : spec_float) : 0 <= scaled P x.
Proof.
  destruct x; cbn [scaled];
    first [ lia
          | apply Z.pow_nonneg; lia
          | apply Z.mul_nonneg_nonneg; [lia|apply Z.pow_nonneg; lia] ].
Qed.

Lemma scaled_le_top (x : spec_float) :
  nonneg x = true -> scaled 0 x <= 2 ^ 2098.
Proof.
  intros Hx. destruct x as [s|s| |s m e]; cbn [scaled].
  - apply Z.pow_nonneg. lia.
  - reflexivity.
  - apply Z.pow_nonneg. lia.
  - apply nonneg_finite in Hx as [_ Hb].
    pose proof (scaled_finite_bounds 0 m e ltac:(lia) Hb). 
    rewrite !Z.add_0_r in *. lia.
Qed.

(** Among the non-negative doubles the order is that of the values. *)
Lemma scaled_le_leb (x y : spec_float) :
  nonneg x = true -> nonneg y = true ->
  scaled 0 x <= scaled 0 y -> SFleb x y = true.
Proof.
  intros Hx Hy Hle.
  destruct x as [sx|sx| |sx mx ex]; try discriminate.
  - destruct y as [sy|sy| |sy my ey]; try discriminate; try reflexivity.
    + apply nonneg_infinity in Hy as ->. reflexivity.
    + apply nonneg_finite in Hy as [-> _]. reflexivity.
  - apply nonneg_infinity in Hx as ->.
    destruct y as [sy|sy| |sy my ey]; try discriminate.
    + exfalso. cbn [scaled] in Hle. pose proof (Z.pow_pos_nonneg 2 2098). lia.
    + apply nonneg_infinity in Hy as ->. reflexivity.
    + exfalso. apply nonneg_finite in Hy as [_ Hb]. cbn [scaled] in Hle.
      pose proof (scaled_finite_bounds 0 my ey ltac:(lia) Hb). 
      rewrite !Z.add_0_r in *. lia.
  - apply nonneg_finite in Hx as [-> Hbx].
    pose proof (scaled_finite_bounds 0 mx ex ltac:(lia) Hbx) as Hvx.
    destruct y as [sy|sy| |sy my ey]; try discriminate.
    + exfalso. cbn [scaled] in Hle. lia.
    + apply nonneg_infinity in Hy as ->. reflexivity.
    + apply nonneg_finite in Hy as [-> Hby].
      cbn [scaled] in Hle. rewrite !Z.add_0_r in *.
      apply bounded_facts in Hbx as (Hex & HDx & Hnx).
      apply bounded_facts in Hby as (Hey & HDy & Hny).
      pose proof (digits2_pos_bounds mx) as Hmx.
      pose proof (digits2_pos_bounds my) as Hmy.
      unfold SFleb. cbn [SFcompare].
      destruct (Z.compare_spec ex ey) as [Ee|Ee|Ee]; [|reflexivity|].
      * subst ey.
        assert (Hp : 0 < 2 ^ (ex + 1074)) by (apply Z.pow_pos_nonneg; lia).
        assert (Hm : Zpos mx <= Zpos my) by nia.
        change (Pos.compare_cont Eq mx my) with (Pos.compare mx my).
        destruct (Pos.compare_spec mx my); try reflexivity. lia.
      * exfalso.
        rewrite (Hnx ltac:(lia)) in Hmx.
        assert (Hp : 0 < 2 ^ (ey + 1074)) by (apply Z.pow_pos_nonneg; lia).
        assert (H1 : Zpos my * 2 ^ (ey + 1074) < 2 ^ 53 * 2 ^ (ey + 1074)).
        { apply Z.mul_lt_mono_pos_r; [assumption|].
          apply Z.lt_le_trans with (2 ^ Zpos (digits2_pos my)); [lia|].
          apply Z.pow_le_mono_r; lia. }
        assert (H2 : 2 ^ 53 * 2 ^ (ey + 1074) <= 2 ^ (53 - 1) * 2 ^ (ex + 1074)).
        { rewrite <- !Z.pow_add_r by lia. apply Z.pow_le_mono_r; lia. }
        assert (H3 : 2 ^ (53 - 1) * 2 ^ (ex + 1074) <= Zpos mx * 2 ^ (ex + 1074)).
        { apply Z.mul_le_mono_nonneg_r; [apply Z.pow_nonneg|]; lia. }
        lia.
Qed.

(** integer rounding: fixed points and zero *)

Lemma RN_zero (P : Z) : 0 <= P -> RN P 0 = 0.
Proof.
  intros HP. unfold RN, shift_of. cbn [Z.log2].
  rewrite Z.max_r by lia.
  assert (0 < 2 ^ P) by (apply Z.pow_pos_nonneg; lia).
  rewrite Z.div_0_l, Z.mod_0_l by lia.
  unfold rne. destruct (Z.compare_spec (2 * 0) (2 ^ P)); lia.
Qed.

Lemma RN_nonneg (P n : Z) : 0 <= P -> 0 <= n -> 0 <= RN P n.
Proof.
  intros HP Hn. unfold RN.
  assert (Hs : 0 <= shift_of P n) by (unfold shift_of; lia).
  assert (0 < 2 ^ shift_of P n) by (apply Z.pow_pos_nonneg; lia).
  pose proof (rne_bounds (n / 2 ^ shift_of P n) (n mod 2 ^ shift_of P n) (2 ^ shift_of P n)).
  assert (0 <= n / 2 ^ shift_of P n) by (apply Z.div_pos; lia).
  apply Z.mul_nonneg_nonneg; lia.
Qed.

Lemma RN_monotone (P n1 n2 : Z) : 0 <= P -> 0 <= n1 <= n2 -> RN P n1 <= RN P n2.
Proof.
  intros HP Hn. destruct (Z.eq_dec n1 0) as [->|Hn1].
  - rewrite RN_zero by assumption. apply RN_nonneg; lia.
  - apply RN_mono; lia.
Qed.

Lemma RN_fixed (P : Z) (m : positive) (e : Z) :
  0 <= P -> bounded 53 1024 m e = true ->
  RN P (Zpos m * 2 ^ (e + 1074 + P)) = Zpos m * 2 ^ (e + 1074 + P).
Proof.
  intros HP Hb. apply bounded_facts in Hb as (He & HD & Hn).
  unfold RN.
  assert (Hs : shift_of P (Zpos m * 2 ^ (e + 1074 + P)) = e + 1074 + P).
  { unfold shift_of. rewrite Z.log2_mul_pow2 by lia.
    rewrite log2_digits2_pos.
    destruct (Z.eq_dec e (-1074)); [lia|]. rewrite Hn by lia. lia. }
  rewrite Hs. cbv zeta.
  assert (Hp : 0 < 2 ^ (e + 1074 + P)) by (apply Z.pow_pos_nonneg; lia).
  rewrite Z.div_mul, Z.mod_mul by lia.
  unfold rne. destruct (Z.compare_spec (2 * 0) (2 ^ (e + 1074 + P))); lia.
Qed.

Lemma RN_top : RN 0 (2 ^ 2098) = 2 ^ 2098.
Proof. vm_compute. reflexivity. Qed.

(** addition and multiplication of non-negative doubles *)

Lemma iter_xO (m d : positive) : Zpos (Pos.iter xO m d) = Zpos m * 2 ^ Zpos d.
Proof.
  induction d as [|d IH] using Pos.peano_ind.
  - cbn [Pos.iter]. lia.
  - rewrite Pos.iter_succ, Pos2Z.inj_succ, Z.pow_succ_r by lia.
    rewrite (Pos2Z.inj_xO (Pos.iter xO m d)), IH. ring.
Qed.

Lemma shl_align_fst (m : positive) (e e' : Z) :
  e' <= e -> Zpos (fst (shl_align m e e')) = Zpos m * 2 ^ (e - e').
Proof.
  intros H. unfold shl_align.
  destruct (e' - e) as [|d|d] eqn:Ed; cbn [fst]; try lia.
  - replace (e - e') with 0 by lia. lia.
  - rewrite iter_xO. replace (e - e') with (Zpos d) by lia. reflexivity.
Qed.

Lemma shl_align_id (m : positive) (e e' : Z) :
  e <= e' -> shl_align m e e' = (m, e).
Proof.
  intros H. unfold shl_align.
  destruct (e' - e) as [|d|d] eqn:Ed; try reflexivity. lia.
Qed.

Lemma add_finite (mx : positive) (ex : Z) (my : positive) (ey : Z) :
  bounded 53 1024 mx ex = true -> bounded 53 1024 my ey = true ->
  nonneg (SFadd 53 1024 (S754_finite false mx ex) (S754_finite false my ey)) = true /\
  scaled 0 (SFadd 53 1024 (S754_finite false mx ex) (S754_finite false my ey)) =
  Z.min (RN 0 (Zpos mx * 2 ^ (ex + 1074) + Zpos my * 2 ^ (ey + 1074))) (2 ^ 2098).
Proof.
  intros Hbx Hby.
  apply bounded_facts in Hbx as (Hex & HDx & Hnx).
  apply bounded_facts in Hby as (Hey & HDy & Hny).
  pose proof (digits2_pos_bounds mx) as Hmx.
  pose proof (digits2_pos_bounds my) as Hmy.
  cbn [SFadd cond_Zopp].
  set (ez := Z.min ex ey).
  pose proof (shl_align_fst mx ex ez ltac:(unfold ez; lia)) as Ex.
  pose proof (shl_align_fst my ey ez ltac:(unfold ez; lia)) as Ey.
  set (mx' := fst (shl_align mx ex ez)) in *.
  set (my' := fst (shl_align my ey ez)) in *.
  change (Zpos mx' + Zpos my') with (Zpos (mx' + my')).
  cbn [binary_normalize]. unfold binary_round.
  assert (Hpx : 0 < 2 ^ (ex - ez)) by (apply Z.pow_pos_nonneg; unfold ez; lia).
  assert (Hpy : 0 < 2 ^ (ey - ez)) by (apply Z.pow_pos_nonneg; unfold ez; lia).
  assert (Hshift : ez <= fexp 53 1024 (Zpos (digits2_pos (mx' + my')) + ez)).
  { rewrite fexp_eq. destruct (Z.eq_dec ez (-1074)) as [E|E]; [lia|].
    assert (H52 : 2 ^ 52 <= Zpos (mx' + my')).
    { rewrite Pos2Z.inj_add, Ex, Ey.
      destruct (Z.le_ge_cases ex ey) as [Hle|Hle].
      - replace (ex - ez) with 0 by (unfold ez; lia).
        rewrite (Hnx ltac:(unfold ez in E; lia)) in Hmx.
        change (2 ^ (53 - 1)) with (2 ^ 52) in Hmx. nia.
      - replace (ey - ez) with 0 by (unfold ez; lia).
        rewrite (Hny ltac:(unfold ez in E; lia)) in Hmy.
        change (2 ^ (53 - 1)) with (2 ^ 52) in Hmy. nia. }
    pose proof (Zdigits2_ge_53 _ H52) as H53. cbn [Zdigits2] in H53. lia. }
  rewrite shl_align_id by assumption.
  destruct (round_aux_spec (mx' + my') ez 0 ltac:(lia) ltac:(unfold ez; lia) Hshift)
    as [Hnn Hval].
  split; [exact Hnn|].
  rewrite Hval. change (2098 + 0) with 2098. f_equal. f_equal.
  rewrite Pos2Z.inj_add, Ex, Ey, Z.add_0_r, Z.mul_add_distr_r.
  rewrite <- !Z.mul_assoc, <- !Z.pow_add_r by (unfold ez; lia).
  f_equal; f_equal; f_equal; lia.
Qed.

Lemma RN_above_top (n : Z) : 2 ^ 2098 <= n -> Z.min (RN 0 n) (2 ^ 2098) = 2 ^ 2098.
Proof.
  intros H. apply Z.min_r. rewrite <- RN_top at 1.
  apply RN_monotone; [lia|]. split; [apply Z.pow_nonneg; lia|assumption].
Qed.

Lemma RN_valid (x : spec_float) :
  nonneg x = true -> Z.min (RN 0 (scaled 0 x)) (2 ^ 2098) = scaled 0 x.
Proof.
  intros Hx. destruct x as [s|s| |s m e]; try discriminate; cbn [scaled].
  - rewrite RN_zero by lia. apply Z.min_l. apply Z.pow_nonneg. lia.
  - change (2098 + 0) with 2098. apply RN_above_top. lia.
  - apply nonneg_finite in Hx as [_ Hb].
    rewrite RN_fixed by (lia || assumption).
    pose proof (scaled_finite_bounds 0 m e ltac:(lia) Hb).
    change (2098 + 0) with 2098 in *. lia.
Qed.

(** The sum of two non-negative doubles is the rounded sum of their
    values. *)
Lemma add_nonneg (a c : spec_float) :
  nonneg a = true -> nonneg c = true ->
  nonneg (SFadd 53 1024 a c) = true /\
  scaled 0 (SFadd 53 1024 a c) = Z.min (RN 0 (scaled 0 a + scaled 0 c)) (2 ^ 2098).
Proof.
  intros Ha Hc.
  destruct a as [sa|sa| |sa ma ea]; [| | discriminate Ha |].
  - (* 0 + c *)
    destruct c as [sc|sc| |sc mc ec]; [| | discriminate Hc |].
    + split; [destruct sa, sc; reflexivity|].
      replace (scaled 0 (SFadd 53 1024 (S754_zero sa) (S754_zero sc))) with 0
        by (destruct sa, sc; reflexivity).
      cbn [scaled]. rewrite Z.add_0_r, RN_zero by lia.
      symmetry. apply Z.min_l. apply Z.pow_nonneg. lia.
    + split; [exact Hc|].
      change (SFadd 53 1024 (S754_zero sa) (S754_infinity sc)) with (S754_infinity sc).
      rewrite <- (RN_valid _ Hc) at 1. reflexivity.
    + split; [exact Hc|].
      change (SFadd 53 1024 (S754_zero sa) (S754_finite sc mc ec))
        with (S754_finite sc mc ec).
      rewrite <- (RN_valid _ Hc) at 1. reflexivity.
  - (* infinity + c *)
    apply nonneg_infinity in Ha as Hs. subst sa.
    assert (Hres : SFadd 53 1024 (S754_infinity false) c = S754_infinity false).
    { destruct c as [sc|sc| |sc mc ec]; [| | discriminate Hc |]; try reflexivity.
      apply nonneg_infinity in Hc as ->. reflexivity. }
    rewrite Hres. split; [reflexivity|].
    symmetry. apply RN_above_top.
    pose proof (scaled_nonneg 0 c) as Pc.
    change (scaled 0 (S754_infinity false)) with (2 ^ 2098).
    apply Z.le_sub_le_add_l. rewrite Z.sub_diag. exact Pc.
  - apply nonneg_finite in Ha as Hfa. destruct Hfa as [-> Hba].
    destruct c as [sc|sc| |sc mc ec]; [| | discriminate Hc |].
    + split; [exact Ha|].
      change (SFadd 53 1024 (S754_finite false ma ea) (S754_zero sc))
        with (S754_finite false ma ea).
      rewrite <- (RN_valid _ Ha) at 1.
      change (scaled 0 (S754_zero sc)) with 0. rewrite Z.add_0_r. reflexivity.
    + apply nonneg_infinity in Hc as Hs. subst sc.
      split; [reflexivity|].
      change (SFadd 53 1024 (S754_finite false ma ea) (S754_infinity false))
        with (S754_infinity false).
      symmetry. apply RN_above_top.
      pose proof (scaled_nonneg 0 (S754_finite false ma ea)) as Pa.
      change (scaled 0 (S754_infinity false)) with (2 ^ 2098).
      apply Z.le_sub_le_add_r. rewrite Z.sub_diag. exact Pa.
    + apply nonneg_finite in Hc as Hfc. destruct Hfc as [-> Hbc].
      destruct (add_finite ma ea mc ec Hba Hbc) as [Hnn Hval].
      split; [exact Hnn|]. rewrite Hval. cbn [scaled]. rewrite !Z.add_0_r. reflexivity.
Qed.

Lemma add_monotone (a b c d : spec_float) :
  nonneg a = true -> nonneg b = true -> nonneg c = true -> nonneg d = true ->
  scaled 0 a <= scaled 0 b -> scaled 0 c <= scaled 0 d ->
  scaled 0 (SFadd 53 1024 a c) <= scaled 0 (SFadd 53 1024 b d).
Proof.
  intros Ha Hb Hc Hd Hab Hcd.
  destruct (add_nonneg a c Ha Hc) as [_ ->].
  destruct (add_nonneg b d Hb Hd) as [_ ->].
  apply Z.min_le_compat_r. apply RN_monotone; [lia|].
  pose proof (scaled_nonneg 0 a). pose proof (scaled_nonneg 0 c). lia.
Qed.

(** multiplication by a double that is at least one *)

Lemma mul_at_least_one (d : spec_float) (mk : positive) (ek : Z) :
  nonneg d = true ->
  ek <= 0 -> 2 ^ 52 <= Zpos mk -> 2 ^ (- ek) <= Zpos mk ->
  nonneg (SFmul 53 1024 d (S754_finite false mk ek)) = true /\
  scaled 0 d <= scaled 0 (SFmul 53 1024 d (S754_finite false mk ek)).
Proof.
  intros Hd Hek Hmk Hone.
  destruct d as [s|s| |s m e]; [| | discriminate Hd |].
  - split; [destruct s; reflexivity|]. destruct s; cbn [SFmul xorb scaled]; lia.
  - apply nonneg_infinity in Hd as ->. split; [reflexivity|].
    cbn [SFmul xorb]. lia.
  - apply nonneg_finite in Hd as Hf. destruct Hf as [-> Hb].
    cbn [SFmul xorb].
    pose proof (bounded_facts m e Hb) as (He & HD & Hn).
    assert (Hprod : 2 ^ 52 <= Zpos (m * mk)) by (rewrite Pos2Z.inj_mul; nia).
    pose proof (Zdigits2_ge_53 _ Hprod) as H53. cbn [Zdigits2] in H53.
    destruct (round_aux_spec (m * mk) (e + ek) (- ek)) as [Hnn Hval].
    + lia.
    + lia.
    + rewrite fexp_eq. lia.
    + split; [exact Hnn|].
      set (r := binary_round_aux 53 1024 false (Zpos (m * mk)) (e + ek) loc_Exact) in *.
      assert (HP : 0 <= - ek) by lia.
      assert (Hle : scaled (- ek) (S754_finite false m e) <= scaled (- ek) r).
      { rewrite Hval. cbn [scaled].
        pose proof (scaled_finite_bounds (- ek) m e HP Hb) as Hbd.
        apply Z.min_glb; [|lia].
        rewrite <- (RN_fixed (- ek) m e HP Hb) at 1.
        apply RN_monotone; [assumption|]. split; [lia|].
        replace (e + ek + 1074 + - ek) with (e + 1074) by lia.
        replace (e + 1074 + - ek) with ((e + 1074) + - ek) by lia.
        rewrite Z.pow_add_r by lia.
        rewrite Pos2Z.inj_mul.
        assert (0 < 2 ^ (e + 1074)) by (apply Z.pow_pos_nonneg; lia).
        nia. }
      rewrite (scaled_shift (- ek) _ HP Hd) in Hle.
      rewrite (scaled_shift (- ek) r HP Hnn) in Hle.
      assert (0 < 2 ^ (- ek)) by (apply Z.pow_pos_nonneg; lia).
      nia.
Qed.

Lemma mul_intensity (d : spec_float) (i : Z) :
  nonneg d = true -> 1 <= i <= 5 ->
  nonneg (SFmul 53 1024 d (of_Z i)) = true /\
  scaled 0 d <= scaled 0 (SFmul 53 1024 d (of_Z i)).
Proof.
  intros Hd Hi.
  assert (Hcases : i = 1 \/ i = 2 \/ i = 3 \/ i = 4 \/ i = 5) by lia.
  destruct Hcases as [->|[->|[->|[->| ->]]]].
  - change (of_Z 1) with (S754_finite false 4503599627370496 (-52)).
    apply mul_at_least_one; [assumption|lia|vm_compute; discriminate|vm_compute; discriminate].
  - change (of_Z 2) with (S754_finite false 4503599627370496 (-51)).
    apply mul_at_least_one; [assumption|lia|vm_compute; discriminate|vm_compute; discriminate].
  - change (of_Z 3) with (S754_finite false 6755399441055744 (-51)).
    apply mul_at_least_one; [assumption|lia|vm_compute; discriminate|vm_compute; discriminate].
  - change (of_Z 4) with (S754_finite false 4503599627370496 (-50)).
    apply mul_at_least_one; [assumption|lia|vm_compute; discriminate|vm_compute; discriminate].
  - change (of_Z 5) with (S754_finite false 5629499534213120 (-50)).
    apply mul_at_least_one; [assumption|lia|vm_compute; discriminate|vm_compute; discriminate].
Qed.

(** the converse: the order of doubles gives the order of values *)

Lemma scaled_lt_ltb (x y : spec_float) :
  nonneg x = true -> nonneg y = true ->
  scaled 0 x < scaled 0 y -> SFltb x y = true.
Proof.
  intros Hx Hy Hlt.
  destruct x as [sx|sx| |sx mx ex]; [| | discriminate Hx |].
  - destruct y as [sy|sy| |sy my ey]; [| | discriminate Hy |].
    + exfalso. cbn [scaled] in Hlt. lia.
    + apply nonneg_infinity in Hy as ->. reflexivity.
    + apply nonneg_finite in Hy as [-> _]. reflexivity.
  - exfalso. pose proof (scaled_le_top y Hy) as Ht.
    change (scaled 0 (S754_infinity sx)) with (2 ^ 2098) in Hlt. lia.
  - apply nonneg_finite in Hx as [-> Hbx].
    pose proof (scaled_finite_bounds 0 mx ex ltac:(lia) Hbx) as Hvx.
    destruct y as [sy|sy| |sy my ey]; [| | discriminate Hy |].
    + exfalso. cbn [scaled] in Hlt. lia.
    + apply nonneg_infinity in Hy as ->. reflexivity.
    + apply nonneg_finite in Hy as [-> Hby].
      cbn [scaled] in Hlt. rewrite !Z.add_0_r in *.
      apply bounded_facts in Hbx as (Hex & HDx & Hnx).
      apply bounded_facts in Hby as (Hey & HDy & Hny).
      pose proof (digits2_pos_bounds mx) as Hmx.
      pose proof (digits2_pos_bounds my) as Hmy.
      unfold SFltb. cbn [SFcompare].
      destruct (Z.compare_spec ex ey) as [Ee|Ee|Ee]; [|reflexivity|].
      * subst ey.
        assert (Hp : 0 < 2 ^ (ex + 1074)) by (apply Z.pow_pos_nonneg; lia).
        assert (Hm : Zpos mx < Zpos my) by nia.
        change (Pos.compare_cont Eq mx my) with (Pos.compare mx my).
        destruct (Pos.compare_spec mx my); try reflexivity; lia.
      * exfalso.
        rewrite (Hnx ltac:(lia)) in Hmx.
        assert (Hp : 0 < 2 ^ (ey + 1074)) by (apply Z.pow_pos_nonneg; lia).
        assert (H1 : Zpos my * 2 ^ (ey + 1074) < 2 ^ 53 * 2 ^ (ey + 1074)).
        { apply Z.mul_lt_mono_pos_r; [assumption|].
          apply Z.lt_le_trans with (2 ^ Zpos (digits2_pos my)); [lia|].
          apply Z.pow_le_mono_r; lia. }
        assert (H2 : 2 ^ 53 * 2 ^ (ey + 1074) <= 2 ^ (53 - 1) * 2 ^ (ex + 1074)).
        { rewrite <- !Z.pow_add_r by lia. apply Z.pow_le_mono_r; lia. }
        assert (H3 : 2 ^ (53 - 1) * 2 ^ (ex + 1074) <= Zpos mx * 2 ^ (ex + 1074)).
        { apply Z.mul_le_mono_nonneg_r; [apply Z.pow_nonneg|]; lia. }
        lia.
Qed.

Lemma SFleb_not_gt (x y : spec_float) : SFleb x y = true -> SFltb y x = false.
Proof.
  unfold SFltb, SFleb.
  assert (H : SFcompare y x = option_map CompOpp (SFcompare x y)).
  { destruct x as [sx|sx| |sx mx ex], y as [sy|sy| |sy my ey];
      try destruct sx; try destruct sy; try reflexivity;
      cbn [SFcompare option_map];
      rewrite (Z.compare_antisym ex ey);
      change (Pos.compare_cont Eq my mx) with (Pos.compare_cont (CompOpp Eq) my mx);
      rewrite <- (Pos.compare_cont_antisym mx my Eq);
      destruct (ex ?= ey)%Z; cbn [CompOpp]; try reflexivity;
      destruct (Pos.compare_cont Eq mx my); reflexivity. }
  rewrite H. destruct (SFcompare x y) as [[]|]; cbn; congruence.
Qed.

Lemma leb_scaled_le (x y : spec_float) :
  nonneg x = true -> nonneg y = true ->
  SFleb x y = true -> scaled 0 x <= scaled 0 y.
Proof.
  intros Hx Hy Hle.
  destruct (Z.le_gt_cases (scaled 0 x) (scaled 0 y)) as [H|H]; [assumption|].
  apply (scaled_lt_ltb y x Hy Hx) in H.
  rewrite (SFleb_not_gt x y Hle) in H. discriminate.
Qed.

(** sign of a rounded result *)

Lemma sign_clear_not_negative (x : spec_float) : sign_clear x -> not_negative x.
Proof.
  unfold not_negative. destruct x as [s|s| |s m e]; cbn [sign_clear];
    try (intros ->); reflexivity.
Qed.

Lemma nonneg_not_negative (x : spec_float) : nonneg x = true -> not_negative x.
Proof.
  intros Hx. unfold not_negative.
  destruct x as [s|s| |s m e]; [destruct s; reflexivity| |discriminate Hx|].
  - apply nonneg_infinity in Hx as ->. reflexivity.
  - apply nonneg_finite in Hx as [-> _]. reflexivity.
Qed.

Lemma round_aux_sign_clear (mx ex : Z) (lx : location) :
  sign_clear (binary_round_aux 53 1024 false mx ex lx).
Proof.
  unfold binary_round_aux.
  destruct (shr_fexp 53 1024 mx ex lx) as [mrs e'].
  destruct (shr_fexp 53 1024 _ e' loc_Exact) as [mrs' e''].
  destruct (shr_m mrs'); [reflexivity| |exact I].
  destruct (e'' <=? 1024 - 53); reflexivity.
Qed.

(** A quotient is negative only if one of its operands is. *)
Lemma div_not_negative (x y : spec_float) :
  not_negative x -> sign_clear y -> not_negative (SFdiv 53 1024 x y).
Proof.
  unfold not_negative at 1. intros Hx Hy.
  destruct x as [sx|sx| |sx mx ex];
    destruct y as [sy|sy| |sy my ey]; cbn [sign_clear] in Hy; try subst sy;
    try reflexivity;
    try (destruct sx; [discriminate Hx|]); try (destruct sx; reflexivity);
    try reflexivity.
  cbn [SFdiv xorb].
  destruct (SFdiv_core_binary 53 1024 (Zpos mx) ex (Zpos my) ey) as [[mz ez] lz].
  apply sign_clear_not_negative, round_aux_sign_clear.
Qed.

(** a finite double divided by itself *)

Lemma div_eucl_pair (a b : Z) : Z.div_eucl a b = (a / b, a mod b).
Proof. unfold Z.div, Z.modulo. destruct (Z.div_eucl a b). reflexivity. Qed.

Lemma div_self (s : bool) (m : positive) (e : Z) :
  SFdiv 53 1024 (S754_finite s m e) (S754_finite s m e) =
  S754_finite false 4503599627370496 (-52).
Proof.
  cbn [SFdiv]. unfold SFdiv_core_binary.
  rewrite !Z.sub_diag.
  change (Z.min (fexp 53 1024 0) 0) with (-53).
  change (0 - -53) with 53.
  cbv zeta iota beta.
  rewrite div_eucl_pair.
  rewrite Z.shiftl_mul_pow2 by lia.
  rewrite (Z.mul_comm (Zpos m)), Z.div_mul, Z.mod_mul by lia.
  replace (new_location (Zpos m) 0) with loc_Exact
    by (unfold new_location, new_location_even, new_location_odd;
        destruct (Z.even (Zpos m)); reflexivity).
  replace (xorb s s) with false by (destruct s; reflexivity).
  vm_compute. reflexivity.
Qed.

End Rounding.

(** ** Sums of durations *)

Section Sums.

Lemma valid_duration_nonneg (d : double) :
  valid_duration d = true -> nonneg d = true.
Proof.
  unfold valid_duration, in_duration_range, nonneg, is_double, MIN_DURATION.
  intros H. apply andb_true_iff in H as [Hv H].
  apply andb_true_iff in H as [Hlo _].
  apply andb_true_iff. split; assumption.
Qed.

Lemma valid_duration_bound (d : double) :
  valid_duration d = true -> scaled 0 d <= scaled 0 MAX_DURATION.
Proof.
  intros H. pose proof (valid_duration_nonneg d H) as Hn.
  unfold valid_duration, in_duration_range in H.
  apply andb_true_iff in H as [_ H]. apply andb_true_iff in H as [_ Hhi].
  apply Rounding.leb_scaled_le; [assumption|reflexivity|exact Hhi].
Qed.

Lemma fold_add_nonneg (ds : list double) :
  Forall (fun d => nonneg d = true) ds ->
  forall acc, nonneg acc = true ->
  nonneg (fold_left (fun a x => add a (id x)) ds acc) = true.
Proof.
  induction 1 as [|d ds Hd _ IH]; intros acc Hacc; [exact Hacc|].
  cbn [fold_left]. apply IH.
  apply (Rounding.add_nonneg acc d Hacc Hd).
Qed.

Lemma fold_add_monotone (ds ds' : list double) :
  Forall2 (fun d d' => nonneg d = true /\ nonneg d' = true /\
                       scaled 0 d <= scaled 0 d') ds ds' ->
  forall acc acc', nonneg acc = true -> nonneg acc' = true ->
  scaled 0 acc <= scaled 0 acc' ->
  scaled 0 (fold_left (fun a x => add a (id x)) ds acc) <=
  scaled 0 (fold_left (fun a x => add a (id x)) ds' acc').
Proof.
  induction 1 as [|d d' ds ds' (Hd & Hd' & Hle) _ IH]; intros acc acc' Ha Ha' Hacc;
    [exact Hacc|].
  cbn [fold_left]. apply IH.
  - apply (Rounding.add_nonneg acc d Ha Hd).
  - apply (Rounding.add_nonneg acc' d' Ha' Hd').
  - apply Rounding.add_monotone; assumption.
Qed.

(** 2^70 seconds is a bound that no sum of valid durations passes: from
    there on, adding at most 86400 is rounded away. *)
Lemma saturation : RN 0 (2 ^ 1144 + scaled 0 MAX_DURATION) = 2 ^ 1144.
Proof. vm_compute. reflexivity. Qed.

Lemma fold_add_bounded (ds : list double) :
  Forall (fun d => valid_duration d = true) ds ->
  forall acc, nonneg acc = true -> scaled 0 acc <= 2 ^ 1144 ->
  scaled 0 (fold_left (fun a x => add a (id x)) ds acc) <= 2 ^ 1144.
Proof.
  induction 1 as [|d ds Hd _ IH]; intros acc Ha Hacc; [exact Hacc|].
  cbn [fold_left].
  pose proof (valid_duration_nonneg d Hd) as Hn.
  pose proof (valid_duration_bound d Hd) as Hb.
  destruct (Rounding.add_nonneg acc d Ha Hn) as [Hnn Hval].
  apply IH; [exact Hnn|].
  unfold id. change (add acc d) with (SFadd 53 1024 acc d). rewrite Hval.
  apply Z.le_trans with (RN 0 (scaled 0 acc + scaled 0 d)); [apply Z.le_min_l|].
  rewrite <- saturation.
  apply Rounding.RN_monotone; [lia|].
  pose proof (Rounding.scaled_nonneg 0 acc). pose proof (Rounding.scaled_nonneg 0 d).
  lia.
Qed.

Lemma totalActiveTime_fold (ds : list double) :
  calculateTotalActiveTime ds = fold_left (fun a x => add a (id x)) ds zero.
Proof. destruct ds; reflexivity. Qed.

End Sums.

Section SumProperties.

Lemma add_zero_r_value (acc : double) :
  nonneg acc = true -> scaled 0 (add acc zero) = scaled 0 acc.
Proof.
  intros Ha.
  destruct (Rounding.add_nonneg acc zero Ha eq_refl) as [_ Hval].
  change (add acc zero) with (SFadd 53 1024 acc zero). rewrite Hval.
  change (scaled 0 zero) with 0. rewrite Z.add_0_r.
  apply Rounding.RN_valid. assumption.
Qed.

Lemma add_ge_left (acc d : double) :
  nonneg acc = true -> nonneg d = true ->
  scaled 0 acc <= scaled 0 (add acc d).
Proof.
  intros Ha Hd. rewrite <- (add_zero_r_value acc Ha).
  apply Rounding.add_monotone;
    first [assumption | reflexivity | apply Z.le_refl | apply Rounding.scaled_nonneg].
Qed.

Lemma fold_add_ge_acc (es : list double) :
  Forall (fun d => nonneg d = true) es ->
  forall acc, nonneg acc = true ->
  scaled 0 acc <= scaled 0 (fold_left (fun a x => add a (id x)) es acc).
Proof.
  induction 1 as [|e es He _ IH]; intros acc Ha; [cbn; lia|].
  cbn [fold_left]. unfold id at 2.
  apply Z.le_trans with (scaled 0 (add acc e)).
  - apply add_ge_left; assumption.
  - apply IH. apply (Rounding.add_nonneg acc e Ha He).
Qed.

Lemma Forall2_leb_values (ds ds' : list double) :
  Forall (fun d => nonneg d = true) ds ->
  Forall (fun d => nonneg d = true) ds' ->
  Forall2 (fun d d' => leb d d' = true) ds ds' ->
  Forall2 (fun d d' => nonneg d = true /\ nonneg d' = true /\
                       scaled 0 d <= scaled 0 d') ds ds'.
Proof.
  intros Hn Hn' H. induction H as [|d d' ds ds' Hle _ IH]; [constructor|].
  inversion Hn; subst. inversion Hn'; subst.
  constructor; [|apply IH; assumption].
  repeat split; try assumption.
  apply Rounding.leb_scaled_le; assumption.
Qed.

End SumProperties.

Lemma valid_durations_sum (ds : list double) :
  Forall (fun d => valid_duration d = true) ds ->
  nonneg (calculateTotalActiveTime ds) = true /\
  scaled 0 (calculateTotalActiveTime ds) <= 2 ^ 1144.
Proof.
  intros Hds. rewrite totalActiveTime_fold.
  assert (Hnn : Forall (fun d => nonneg d = true) ds)
    by (eapply Forall_impl; [|exact Hds]; apply valid_duration_nonneg).
  split.
  - apply (fold_add_nonneg ds Hnn zero eq_refl).
  - apply (fold_add_bounded ds Hds zero eq_refl).
    change (scaled 0 zero) with 0. apply Z.pow_nonneg. lia.
Qed.

Lemma valid_durations_sum_finite (ds : list double) :
  Forall (fun d => valid_duration d = true) ds ->
  is_double (calculateTotalActiveTime ds) = true /\
  leb zero (calculateTotalActiveTime ds) = true /\
  ltb (calculateTotalActiveTime ds) infinity = true.
Proof.
  intros Hds. destruct (valid_durations_sum ds Hds) as [Hn Hb].
  apply andb_true_iff in Hn as Hsplit. destruct Hsplit as [Hv Hz].
  repeat split; try assumption.
  apply Rounding.scaled_lt_ltb; [assumption|reflexivity|].
  apply Z.le_lt_trans with (2 ^ 1144); [exact Hb|].
  change (scaled 0 infinity) with (2 ^ 2098). apply Z.pow_lt_mono_r; lia.
Qed.

(** The total active time of valid durations is a double between 0.0 and
    2^70: it is not NaN and the sum never overflows to infinity, however
    many sets there are. *)
Theorem totalActiveTime_finite (ds : list double) :
  Forall (fun d => valid_duration d = true) ds ->
  is_double (calculateTotalActiveTime ds) = true /\
  leb zero (calculateTotalActiveTime ds) = true /\
  ltb (calculateTotalActiveTime ds) infinity = true /\
  scaled 0 (calculateTotalActiveTime ds) <= 2 ^ 70 * 2 ^ 1074.
Proof.
  intros Hds.
  destruct (valid_durations_sum_finite ds Hds) as (Hv & Hz & Hf).
  repeat split; try assumption.
  change (2 ^ 70 * 2 ^ 1074) with (2 ^ 1144).
  apply (valid_durations_sum ds Hds).
Qed.

Lemma totalActiveTime_finite_witness :
  is_double (calculateTotalActiveTime (dl [300; 86400; 0])) = true /\
  leb zero (calculateTotalActiveTime (dl [300; 86400; 0])) = true /\
  ltb (calculateTotalActiveTime (dl [300; 86400; 0])) infinity = true /\
  scaled 0 (calculateTotalActiveTime (dl [300; 86400; 0])) <= 2 ^ 70 * 2 ^ 1074.
Proof.
  apply totalActiveTime_finite. repeat constructor.
Defined.

(** The total active time is monotone: making sets longer, or appending
    sets, never makes it smaller, rounding included. *)
Theorem totalActiveTime_monotone (ds ds' es : list double) :
  Forall (fun d => nonneg d = true) ds ->
  Forall (fun d => nonneg d = true) ds' ->
  Forall (fun d => nonneg d = true) es ->
  Forall2 (fun d d' => leb d d' = true) ds ds' ->
  leb (calculateTotalActiveTime ds) (calculateTotalActiveTime (ds' ++ es)) = true.
Proof.
  intros Hn Hn' He H2.
  rewrite !totalActiveTime_fold, fold_left_app.
  pose proof (fold_add_nonneg ds Hn zero eq_refl) as Ht.
  pose proof (fold_add_nonneg ds' Hn' zero eq_refl) as Ht'.
  apply Rounding.scaled_le_leb.
  - exact Ht.
  - apply fold_add_nonneg; assumption.
  - apply Z.le_trans with (scaled 0 (fold_left (fun a x => add a (id x)) ds' zero)).
    + apply fold_add_monotone; try reflexivity.
      apply Forall2_leb_values; assumption.
    + apply fold_add_ge_acc; assumption.
Qed.

Lemma totalActiveTime_monotone_witness :
  leb (calculateTotalActiveTime (dl [300; 200]))
      (calculateTotalActiveTime (dl [300; 250] ++ dl [60])) = true.
Proof.
  apply totalActiveTime_monotone; repeat constructor.
Defined.

(** ** Outcomes of the analysis *)

Section Outcomes.

Lemma checkDurations_defined (ds : list double) (i0 : nat) :
  checkDurations i0 ds <> Undefined.
Proof.
  revert i0. induction ds as [|d ds IH]; intros i0; cbn [checkDurations].
  - discriminate.
  - destruct (ltb d MIN_DURATION || ltb MAX_DURATION d); [discriminate|apply IH].
Qed.

Lemma checkIntensities_defined (xs : list Z) (i0 : nat) :
  checkIntensities i0 xs <> Undefined.
Proof.
  revert i0. induction xs as [|x xs IH]; intros i0; cbn [checkIntensities].
  - discriminate.
  - destruct ((x <? MIN_INTENSITY) || (MAX_INTENSITY <? x)); [discriminate|apply IH].
Qed.

Lemma validateInputs_defined (ds : list double) (xs : list Z) :
  validateInputs ds xs <> Undefined.
Proof.
  unfold validateInputs.
  destruct (negb (List.length ds =? List.length xs)%nat); [discriminate|].
  pose proof (checkDurations_defined ds 0) as Hd.
  destruct (checkDurations 0 ds) as [[]|e|]; cbn [bind];
    [apply checkIntensities_defined|discriminate|congruence].
Qed.

Lemma calculateWorkRestRatio_outcome (ds rs : list double) :
  (exists r, calculateWorkRestRatio ds rs = Ok r) \/
  calculateWorkRestRatio ds rs = Throw (invalid_argument rest_size_message).
Proof.
  unfold calculateWorkRestRatio.
  destruct ds as [|d ds]; [left; eexists; reflexivity|].
  destruct rs as [|r rs].
  - cbn [bind]. left. destruct (ltb _ EPSILON); eexists; reflexivity.
  - destruct (negb _ && negb _).
    + right. reflexivity.
    + cbn [bind]. left. destruct (ltb _ EPSILON); eexists; reflexivity.
Qed.

Lemma analyze_after_validation (ds : list double) (xs : list Z) (rs : list double)
    (ratio : double) :
  validateInputs ds xs = Ok tt ->
  calculateWorkRestRatio ds rs = Ok ratio ->
  exists density volume,
    calculateTrainingDensityScore ds xs = Ok density /\
    weightedVolume of_Z ds xs zero = Ok volume /\
    analyze ds xs rs =
    Ok {| totalActiveTime := calculateTotalActiveTime ds;
          workRestRatio := ratio;
          consistencyScore := calculateConsistencyScore ds xs;
          trainingDensityScore := density;
          averageIntensity :=
            div (accumulate of_Z xs) (of_Z (Z.of_nat (List.length xs)));
          totalWorkVolume := volume;
          totalSets := List.length ds |}.
Proof.
  intros Hv Hr.
  pose proof (validateInputs_same_size ds xs Hv) as Hlen.
  destruct (densityScore_in_unit_interval ds xs Hlen) as (density & Hd & _).
  destruct (weightedVolume_defined of_Z ds xs zero Hlen) as (volume & Hw).
  exists density, volume. repeat split; try assumption.
  unfold analyze. rewrite Hv, Hr, Hd, Hw. reflexivity.
Qed.

End Outcomes.

(** [analyze] never reads a vector out of bounds: its outcome is a result,
    or one of the three [std::invalid_argument] errors. *)
Theorem analyze_never_undefined (ds : list double) (xs : list Z) (rs : list double) :
  analyze ds xs rs <> Undefined.
Proof.
  pose proof (validateInputs_defined ds xs) as Hv.
  destruct (validateInputs ds xs) as [[]|e|] eqn:Ev; [| |congruence].
  - destruct (calculateWorkRestRatio_outcome ds rs) as [[ratio Hr]|Hr].
    + destruct (analyze_after_validation ds xs rs ratio Ev Hr) as (? & ? & _ & _ & ->).
      discriminate.
    + unfold analyze. rewrite Ev, Hr. discriminate.
  - rewrite (analyze_validates_first ds xs rs e Ev). discriminate.
Qed.

(** When validation passes and the rest vector is empty or of an accepted
    length, [analyze] returns a record: the number of sets is the number of
    durations, and the four scores are what the static functions return on
    the same vectors. *)
Theorem analyze_returns (ds : list double) (xs : list Z) (rs : list double) :
  validateInputs ds xs = Ok tt ->
  ds = [] \/ accepted_rest ds rs ->
  exists r, analyze ds xs rs = Ok r /\
    totalSets r = List.length ds /\
    totalSets r = List.length xs /\
    totalActiveTime r = calculateTotalActiveTime ds /\
    calculateWorkRestRatio ds rs = Ok (workRestRatio r) /\
    consistencyScore r = calculateConsistencyScore ds xs /\
    calculateTrainingDensityScore ds xs = Ok (trainingDensityScore r).
Proof.
  intros Hv Hrs.
  assert (Hr : exists ratio, calculateWorkRestRatio ds rs = Ok ratio).
  { destruct ds as [|d ds]; [eexists; reflexivity|].
    destruct Hrs as [Hrs|Hrs]; [discriminate|].
    rewrite (rest_size_accepted (d :: ds) rs ltac:(discriminate) Hrs).
    eexists. reflexivity. }
  destruct Hr as [ratio Hr].
  destruct (analyze_after_validation ds xs rs ratio Hv Hr) as (density & volume & Hd & _ & Ha).
  eexists. split; [exact Ha|]. cbn.
  repeat split; try assumption.
  apply validateInputs_same_size. assumption.
Qed.

Lemma analyze_returns_witness :
  exists r, analyze (dl [300; 240]) [3; 4] (dl [60]) = Ok r /\
    totalSets r = List.length (dl [300; 240]) /\
    totalSets r = List.length [3; 4] /\
    totalActiveTime r = calculateTotalActiveTime (dl [300; 240]) /\
    calculateWorkRestRatio (dl [300; 240]) (dl [60]) = Ok (workRestRatio r) /\
    consistencyScore r = calculateConsistencyScore (dl [300; 240]) [3; 4] /\
    calculateTrainingDensityScore (dl [300; 240]) [3; 4] = Ok (trainingDensityScore r).
Proof.
  apply analyze_returns.
  - reflexivity.
  - right. right. right. reflexivity.
Defined.

(** Validation comes first, the rest vector second: on vectors that pass
    validation, with at least one set, a non-empty rest vector of a wrong
    length makes [analyze] throw the rest-size error. *)
Theorem analyze_rest_size_error (ds : list double) (xs : list Z) (rs : list double) :
  validateInputs ds xs = Ok tt ->
  ds <> [] -> rs <> [] ->
  List.length rs <> List.length ds ->
  List.length rs <> (List.length ds - 1)%nat ->
  analyze ds xs rs = Throw (invalid_argument rest_size_message).
Proof.
  intros Hv Hds Hrs Hn Hg. unfold analyze.
  rewrite Hv, (rest_size_rejected ds rs Hds Hrs Hn Hg). reflexivity.
Qed.

Lemma analyze_rest_size_error_witness :
  analyze (dl [300; 240; 180]) [3; 4; 5] (dl [60]) =
  Throw (invalid_argument rest_size_message).
Proof.
  apply analyze_rest_size_error; try discriminate. reflexivity.
Defined.

(** ** Work volume against active time *)

Section WorkVolume.

Lemma in_intensity_range_bounds (i : Z) :
  in_intensity_range i = true -> 1 <= i <= 5.
Proof.
  unfold in_intensity_range, MIN_INTENSITY, MAX_INTENSITY.
  intros H. apply andb_true_iff in H as [Hlo Hhi].
  apply Z.leb_le in Hlo. apply Z.leb_le in Hhi. lia.
Qed.

Lemma weightedVolume_lower (ds : list double) :
  forall (xs : list Z) (acc acc' : double),
  List.length ds = List.length xs ->
  Forall (fun d => nonneg d = true) ds ->
  Forall (fun i => in_intensity_range i = true) xs ->
  nonneg acc = true -> nonneg acc' = true ->
  scaled 0 acc <= scaled 0 acc' ->
  exists w, weightedVolume of_Z ds xs acc' = Ok w /\ nonneg w = true /\
            scaled 0 (fold_left (fun a x => add a (id x)) ds acc) <= scaled 0 w.
Proof.
  induction ds as [|d ds IH]; intros xs acc acc' Hlen Hds Hxs Ha Ha' Hle.
  - exists acc'. repeat split; assumption.
  - destruct xs as [|i xs]; [discriminate|].
    inversion Hds as [|? ? Hd Hds']; subst.
    inversion Hxs as [|? ? Hi Hxs']; subst.
    cbn [weightedVolume fold_left]. unfold id at 2.
    destruct (Rounding.mul_intensity d i Hd (in_intensity_range_bounds i Hi))
      as [Hp Hdp].
    apply IH.
    + simpl in Hlen. congruence.
    + assumption.
    + assumption.
    + apply (Rounding.add_nonneg acc d Ha Hd).
    + apply (Rounding.add_nonneg acc' _ Ha' Hp).
    + apply Rounding.add_monotone; assumption.
Qed.

Lemma valid_input_durations (ds : list double) (xs : list Z) :
  valid_input ds xs -> Forall (fun d => is_double d = true) ds ->
  Forall (fun d => valid_duration d = true) ds.
Proof.
  intros (_ & Hr & _) Hd. apply Forall_forall. intros d Hin.
  rewrite Forall_forall in Hr, Hd. unfold valid_duration.
  rewrite (Hr d Hin), (Hd d Hin). reflexivity.
Qed.

End WorkVolume.

(** On every valid input of binary64 durations the total work volume is at
    least the total active time, rounding included: each intensity weight
    is at least 1 and rounding is monotone. *)
Theorem workVolume_at_least_activeTime (ds : list double) (xs : list Z)
    (rs : list double) :
  valid_input ds xs ->
  Forall (fun d => is_double d = true) ds ->
  ds = [] \/ accepted_rest ds rs ->
  exists r, analyze ds xs rs = Ok r /\
            leb (totalActiveTime r) (totalWorkVolume r) = true.
Proof.
  intros Hvalid Hdbl Hrs.
  pose proof (valid_input_validates ds xs Hvalid) as Hv.
  assert (Hr : exists ratio, calculateWorkRestRatio ds rs = Ok ratio).
  { destruct ds as [|d ds]; [eexists; reflexivity|].
    destruct Hrs as [Hrs|Hrs]; [discriminate|].
    rewrite (rest_size_accepted (d :: ds) rs ltac:(discriminate) Hrs).
    eexists. reflexivity. }
  destruct Hr as [ratio Hr].
  destruct (analyze_after_validation ds xs rs ratio Hv Hr)
    as (density & volume & _ & Hw & Ha).
  eexists. split; [exact Ha|]. cbn [totalActiveTime totalWorkVolume].
  pose proof (valid_input_durations ds xs Hvalid Hdbl) as Hvd.
  assert (Hnn : Forall (fun d => nonneg d = true) ds)
    by (eapply Forall_impl; [|exact Hvd]; apply valid_duration_nonneg).
  destruct Hvalid as (Hlen & _ & Hxs).
  destruct (weightedVolume_lower ds xs zero zero Hlen Hnn Hxs eq_refl eq_refl
              ltac:(reflexivity)) as (w & Hw' & Hwn & Hle).
  rewrite Hw in Hw'. injection Hw' as ->.
  rewrite totalActiveTime_fold.
  apply Rounding.scaled_le_leb; [|assumption|assumption].
  apply fold_add_nonneg; [assumption|reflexivity].
Qed.

Lemma workVolume_at_least_activeTime_witness :
  exists r, analyze (dl [180; 240; 300]) [2; 3; 5] [] = Ok r /\
            leb (totalActiveTime r) (totalWorkVolume r) = true.
Proof.
  apply workVolume_at_least_activeTime.
  - split; [reflexivity|]. split; repeat constructor.
  - repeat constructor.
  - right. left. reflexivity.
Defined.





(** ** The ratio on checked durations *)

Section Ratio.

Lemma not_below_EPSILON_sign_clear (y : double) :
  ltb y EPSILON = false -> sign_clear y.
Proof.
  destruct y as [s|s| |s m e]; try destruct s; cbn [sign_clear];
    intros H; try reflexivity; try exact I; discriminate H.
Qed.

Lemma ratio_branch_not_negative (work rest : double) :
  nonneg work = true ->
  not_negative (if ltb rest EPSILON then infinity else div work rest).
Proof.
  intros Hw. destruct (ltb rest EPSILON) eqn:E; [reflexivity|].
  apply Rounding.div_not_negative.
  - apply Rounding.nonneg_not_negative. assumption.
  - apply not_below_EPSILON_sign_clear. assumption.
Qed.

End Ratio.

(** With durations that are non-negative binary64 values, the work/rest
    ratio is never negative, whatever the rest durations hold (they are
    not range-checked): the call returns a ratio that is not below 0.0, or
    throws the rest-size error. *)
Theorem workRestRatio_not_negative (ds rs : list double) :
  Forall (fun d => nonneg d = true) ds ->
  (exists r, calculateWorkRestRatio ds rs = Ok r /\ ltb r zero = false) \/
  calculateWorkRestRatio ds rs = Throw (invalid_argument rest_size_message).
Proof.
  intros Hds.
  destruct ds as [|d ds]; [left; exists zero; split; reflexivity|].
  pose proof (fold_add_nonneg (d :: ds) Hds zero eq_refl) as Hw.
  destruct (calculateWorkRestRatio_outcome (d :: ds) rs) as [[r Hr]|Hr];
    [left|right; exact Hr].
  exists r. split; [exact Hr|].
  assert (Hacc : accepted_rest (d :: ds) rs).
  { destruct rs as [|r0 rs]; [left; reflexivity|].
    destruct (Nat.eq_dec (List.length (r0 :: rs)) (List.length (d :: ds))) as [E|E];
      [right; left; exact E|].
    destruct (Nat.eq_dec (List.length (r0 :: rs)) (List.length (d :: ds) - 1)) as [G|G];
      [right; right; exact G|].
    rewrite (rest_size_rejected (d :: ds) (r0 :: rs)) in Hr
      by (assumption || discriminate).
    discriminate Hr. }
  rewrite (rest_size_accepted (d :: ds) rs ltac:(discriminate) Hacc) in Hr.
  injection Hr as <-.
  apply (ratio_branch_not_negative _ (totalRestOf (d :: ds) rs) Hw).
Qed.

Lemma workRestRatio_not_negative_witness :
  (exists r, calculateWorkRestRatio (dl [300; 240]) (dl [-40; 100]) = Ok r /\
             ltb r zero = false) \/
  calculateWorkRestRatio (dl [300; 240]) (dl [-40; 100]) =
  Throw (invalid_argument rest_size_message).
Proof.
  apply workRestRatio_not_negative. repeat constructor.
Defined.

(** With no rest durations, the ratio of a non-empty session of valid
    durations is exactly 1.0, unless its total active time is below 1e-9
    (all sets of length zero, say): then it is positive infinity. *)
Theorem workRestRatio_default (ds : list double) :
  Forall (fun d => valid_duration d = true) ds -> ds <> [] ->
  calculateWorkRestRatio ds [] =
  Ok (if ltb (calculateTotalActiveTime ds) EPSILON then infinity else one).
Proof.
  intros Hds Hne.
  rewrite (rest_size_accepted ds [] Hne (or_introl eq_refl)).
  destruct (valid_durations_sum_finite ds Hds) as (_ & Hz & Hfin).
  replace (totalRestOf ds []) with (calculateTotalActiveTime ds)
    by (destruct ds; [congruence|reflexivity]).
  replace (accumulate id ds) with (calculateTotalActiveTime ds)
    by (destruct ds; [congruence|reflexivity]).
  destruct (ltb (calculateTotalActiveTime ds) EPSILON) eqn:E; [reflexivity|].
  f_equal.
  destruct (calculateTotalActiveTime ds) as [s|s| |s m e].
  - destruct s; discriminate E.
  - destruct s; discriminate.
  - discriminate.
  - apply (Rounding.div_self s m e).
Qed.

Lemma workRestRatio_default_witness :
  calculateWorkRestRatio (dl [0; 0]) [] = Ok infinity /\
  calculateWorkRestRatio (dl [240; 300; 180]) [] = Ok one.
Proof.
  split.
  - apply (workRestRatio_default (dl [0; 0])); [repeat constructor|discriminate].
  - apply (workRestRatio_default (dl [240; 300; 180])); [repeat constructor|discriminate].
Defined.

(** ** What validation reports *)

Section Reports.

Lemma checkDurations_result (ds : list double) :
  forall i0,
  (checkDurations i0 ds = Ok tt /\
   Forall (fun d => outside_duration_range d = false) ds) \/
  (exists k d,
     nth_error ds k = Some d /\ outside_duration_range d = true /\
     Forall (fun d => outside_duration_range d = false) (firstn k ds) /\
     checkDurations i0 ds = Throw (invalid_argument (duration_range_message (i0 + k)))).
Proof.
  induction ds as [|d ds IH]; intros i0.
  - left. split; [reflexivity|constructor].
  - cbn [checkDurations].
    destruct (outside_duration_range d) eqn:Hd.
    + right. exists 0%nat, d. unfold outside_duration_range in Hd. rewrite Hd.
      rewrite Nat.add_0_r. repeat split; try assumption. constructor.
    + unfold outside_duration_range in Hd. rewrite Hd.
      fold (outside_duration_range d) in Hd.
      destruct (IH (S i0)) as [[Hok Hall]|(k & d' & Hk & Hd' & Hfirst & Hc)].
      * left. split; [assumption|constructor; assumption].
      * right. exists (S k), d'. rewrite Nat.add_succ_r.
        repeat split; try assumption. cbn [firstn]. constructor; assumption.
Qed.

Lemma checkIntensities_result (xs : list Z) :
  forall i0,
  (checkIntensities i0 xs = Ok tt /\
   Forall (fun i => outside_intensity_range i = false) xs) \/
  (exists k i,
     nth_error xs k = Some i /\ outside_intensity_range i = true /\
     Forall (fun i => outside_intensity_range i = false) (firstn k xs) /\
     checkIntensities i0 xs = Throw (invalid_argument (intensity_range_message (i0 + k)))).
Proof.
  induction xs as [|x xs IH]; intros i0.
  - left. split; [reflexivity|constructor].
  - cbn [checkIntensities].
    destruct (outside_intensity_range x) eqn:Hx.
    + right. exists 0%nat, x. unfold outside_intensity_range in Hx. rewrite Hx.
      rewrite Nat.add_0_r. repeat split; try assumption. constructor.
    + unfold outside_intensity_range in Hx. rewrite Hx.
      fold (outside_intensity_range x) in Hx.
      destruct (IH (S i0)) as [[Hok Hall]|(k & i' & Hk & Hi' & Hfirst & Hc)].
      * left. split; [assumption|constructor; assumption].
      * right. exists (S k), i'. rewrite Nat.add_succ_r.
        repeat split; try assumption. cbn [firstn]. constructor; assumption.
Qed.

Lemma checkDurations_nan (ds1 ds2 : list double) :
  forall i0,
  checkDurations i0 (ds1 ++ nan :: ds2) = checkDurations i0 (ds1 ++ zero :: ds2).
Proof.
  induction ds1 as [|d ds1 IH]; intros i0.
  - reflexivity.
  - cbn [app checkDurations]. rewrite IH. reflexivity.
Qed.

End Reports.

(** Validation passes exactly when the two vectors have the same length,
    no duration is below 0 or above 86400, and no intensity is below 1 or
    above 5. *)
Theorem validateInputs_ok_iff (ds : list double) (xs : list Z) :
  validateInputs ds xs = Ok tt <->
  List.length ds = List.length xs /\
  Forall (fun d => outside_duration_range d = false) ds /\
  Forall (fun i => outside_intensity_range i = false) xs.
Proof.
  unfold validateInputs. split.
  - destruct (List.length ds =? List.length xs)%nat eqn:E; [|discriminate].
    cbn [negb]. apply Nat.eqb_eq in E.
    destruct (checkDurations_result ds 0) as [[Hok Hd]|(k & d & _ & _ & _ & Hc)].
    + rewrite Hok. cbn [bind].
      destruct (checkIntensities_result xs 0) as [[_ Hi]|(k & i & _ & _ & _ & Hc)].
      * intros _. repeat split; assumption.
      * rewrite Hc. discriminate.
    + rewrite Hc. discriminate.
  - intros (Hlen & Hd & Hi).
    rewrite Hlen, Nat.eqb_refl. cbn [negb].
    rewrite (checkDurations_ok ds 0 Hd). cbn [bind].
    apply checkIntensities_ok. assumption.
Qed.



(** Validation cannot tell a NaN duration from 0.0: NaN is neither below 0
    nor above 86400, so a NaN at any index is let through. *)
Theorem validateInputs_nan_as_zero (ds1 ds2 : list double) (xs : list Z) :
  validateInputs (ds1 ++ nan :: ds2) xs = validateInputs (ds1 ++ zero :: ds2) xs.
Proof.
  unfold validateInputs.
  rewrite checkDurations_nan, !length_app. reflexivity.
Qed.

(** ** NaN durations *)

Section NaN.

Lemma add_nan_l (x : double) : add nan x = nan.
Proof. reflexivity. Qed.

Lemma add_nan_r (x : double) : add x nan = nan.
Proof. destruct x; reflexivity. Qed.

Lemma div_nan_l (x : double) : div nan x = nan.
Proof. reflexivity. Qed.

Lemma div_nan_r (x : double) : div x nan = nan.
Proof. destruct x; reflexivity. Qed.

Lemma mul_nan_r (x : double) : mul x nan = nan.
Proof. destruct x; reflexivity. Qed.

Lemma fold_add_from_nan (ds : list double) :
  fold_left (fun a x => add a (id x)) ds nan = nan.
Proof.
  induction ds as [|d ds IH]; [reflexivity|].
  cbn [fold_left]. rewrite add_nan_l. exact IH.
Qed.

Lemma fold_add_nan (ds : list double) :
  In nan ds -> forall acc, fold_left (fun a x => add a (id x)) ds acc = nan.
Proof.
  induction ds as [|d ds IH]; intros Hin acc; [contradiction|].
  cbn [fold_left]. destruct Hin as [->|Hin].
  - unfold id at 2. rewrite add_nan_r. apply fold_add_from_nan.
  - apply IH. assumption.
Qed.

Lemma mean_nan (ds : list double) : In nan ds -> mean ds = nan.
Proof.
  intros Hin. unfold mean, accumulate.
  destruct ds as [|d ds]; [contradiction|].
  rewrite (fold_add_nan _ Hin). apply div_nan_l.
Qed.

Lemma coefficientOfVariation_nan (ds : list double) :
  In nan ds -> coefficientOfVariation ds = nan.
Proof.
  intros Hin. unfold coefficientOfVariation.
  destruct ds as [|d ds]; [contradiction|].
  rewrite (mean_nan _ Hin).
  change (ltb (abs nan) EPSILON) with false. cbv iota.
  apply div_nan_r.
Qed.

End NaN.

(** A NaN duration, which validation lets through, makes the total active
    time NaN and, with two sets or more, the consistency score exactly 1.0:
    the clamp turns the NaN of the formula into 1.0. *)
Theorem nan_duration_scores (ds : list double) (xs : list Z) :
  In nan ds ->
  calculateTotalActiveTime ds = nan /\
  ((2 <= List.length ds)%nat -> calculateConsistencyScore ds xs = one).
Proof.
  intros Hin. split.
  - rewrite totalActiveTime_fold. apply fold_add_nan. assumption.
  - intros Hlen.
    rewrite consistencyScore_formula by (apply Nat.ltb_ge; assumption).
    unfold consistencyFormula.
    rewrite (coefficientOfVariation_nan ds Hin).
    rewrite add_nan_r, div_nan_r, mul_nan_r, add_nan_l. reflexivity.
Qed.

Lemma nan_duration_scores_witness :
  calculateTotalActiveTime [of_Z 300; nan; of_Z 240] = nan /\
  calculateConsistencyScore [of_Z 300; nan; of_Z 240] [3; 3; 3] = one.
Proof.
  destruct (nan_duration_scores [of_Z 300; nan; of_Z 240] [3; 3; 3]) as [Ht Hc].
  - right. left. reflexivity.
  - split; [exact Ht|]. apply Hc. simpl. lia.
Defined.

(** ** Intensities on the unit scale *)

(** [normalizeIntensity] maps the five intensities onto 0, 1/4, 1/2, 3/4
    and 1: the result is in the unit interval, it is 0.0 at 1 and 1.0 at 5,
    and a higher intensity never has a lower normalized value. *)
Theorem normalizeIntensity_scale (i j : Z) :
  in_intensity_range i = true -> in_intensity_range j = true ->
  in_unit_interval (normalizeIntensity i) /\
  (i = 1 -> normalizeIntensity i = zero) /\
  (i = 5 -> normalizeIntensity i = one) /\
  (i <= j -> leb (normalizeIntensity i) (normalizeIntensity j) = true) /\
  (i < j -> ltb (normalizeIntensity i) (normalizeIntensity j) = true).
Proof.
  intros Hi Hj.
  apply in_intensity_range_bounds in Hi. apply in_intensity_range_bounds in Hj.
  assert (Ci : i = 1 \/ i = 2 \/ i = 3 \/ i = 4 \/ i = 5) by lia.
  assert (Cj : j = 1 \/ j = 2 \/ j = 3 \/ j = 4 \/ j = 5) by lia.
  destruct Ci as [->|[->|[->|[->| ->]]]];
    destruct Cj as [->|[->|[->|[->| ->]]]];
    (split; [split; reflexivity|]);
    (split; [intros; first [reflexivity|lia]|]);
    (split; [intros; first [reflexivity|lia]|]);
    (split; intros; first [reflexivity|lia]).
Qed.

Lemma normalizeIntensity_scale_witness :
  in_unit_interval (normalizeIntensity 2) /\
  leb (normalizeIntensity 2) (normalizeIntensity 4) = true /\
  ltb (normalizeIntensity 2) (normalizeIntensity 4) = true.
Proof.
  destruct (normalizeIntensity_scale 2 4 eq_refl eq_refl) as (H1 & _ & _ & H2 & H3).
  split; [exact H1|]. split; [apply H2; lia|apply H3; lia].
Defined.

(** ** Signs of the statistics *)

Section Signs.

Lemma sqrt_not_negative (x : double) : not_negative (sqrt x).
Proof.
  unfold sqrt. destruct x as [s|s| |s m e]; try (destruct s; reflexivity);
    try reflexivity.
  destruct s; [reflexivity|].
  cbn [SFsqrt].
  destruct (SFsqrt_core_binary prec emax (Zpos m) e) as [[mz ez] lz].
  apply Rounding.sign_clear_not_negative, Rounding.round_aux_sign_clear.
Qed.

Lemma of_Z_sign_clear (z : Z) : 0 <= z -> sign_clear (of_Z z).
Proof.
  intros Hz. destruct z as [|p|p]; [reflexivity| |lia].
  unfold of_Z. cbn [binary_normalize]. unfold binary_round.
  destruct (shl_align p 0 _) as [mz ez].
  apply Rounding.round_aux_sign_clear.
Qed.

Lemma mean_not_negative (vs : list double) :
  Forall (fun v => nonneg v = true) vs -> not_negative (mean vs).
Proof.
  intros Hvs. unfold mean. destruct vs as [|v vs]; [reflexivity|].
  apply Rounding.div_not_negative.
  - apply Rounding.nonneg_not_negative.
    apply (fold_add_nonneg (v :: vs) Hvs zero eq_refl).
  - apply of_Z_sign_clear. lia.
Qed.

Lemma not_small_sign_clear (m : double) :
  not_negative m -> ltb (abs m) EPSILON = false -> sign_clear m.
Proof.
  unfold not_negative.
  destruct m as [s|s| |s mm e]; try destruct s; cbn [sign_clear];
    intros H1 H2; try reflexivity; try exact I;
    first [discriminate H1 | discriminate H2].
Qed.

Lemma of_Z_uint8_nonneg (i : Z) : 0 <= i < 256 -> nonneg (of_Z i) = true.
Proof.
  intros Hi.
  assert (Hall : forallb (fun n => nonneg (of_Z (Z.of_nat n))) (seq 0 256) = true)
    by (vm_compute; reflexivity).
  rewrite forallb_forall in Hall.
  specialize (Hall (Z.to_nat i)). rewrite Z2Nat.id in Hall by lia.
  apply Hall. apply in_seq. lia.
Qed.

Lemma coefficientOfVariation_not_negative (vs : list double) :
  Forall (fun v => nonneg v = true) vs ->
  not_negative (coefficientOfVariation vs).
Proof.
  intros Hvs. unfold coefficientOfVariation.
  destruct vs as [|v vs]; [reflexivity|].
  destruct (ltb (abs (mean (v :: vs))) EPSILON) eqn:E; [reflexivity|].
  apply Rounding.div_not_negative.
  - unfold standardDeviation.
    destruct (List.length (v :: vs) <? 2)%nat; [reflexivity|apply sqrt_not_negative].
  - apply not_small_sign_clear; [apply mean_not_negative|]; assumption.
Qed.

End Signs.

(** The standard deviation is never negative, whatever the values are
    (negative, infinite or NaN values included): it is 0.0, NaN, or the
    result of a square root. *)
Theorem standardDeviation_not_negative (vs : list double) :
  ltb (standardDeviation vs) zero = false.
Proof.
  unfold standardDeviation.
  destruct (List.length vs <? 2)%nat; [reflexivity|apply sqrt_not_negative].
Qed.

(** The coefficient of variation can be negative only through a negative
    mean: for durations that are non-negative binary64 values, and for
    intensities that are [uint8_t] values, neither coefficient of the
    consistency score is below 0.0. *)
Theorem coefficients_not_negative (ds : list double) (xs : list Z) :
  Forall (fun d => nonneg d = true) ds ->
  Forall (fun i => 0 <= i < 256) xs ->
  ltb (coefficientOfVariation ds) zero = false /\
  ltb (coefficientOfVariation (map of_Z xs)) zero = false.
Proof.
  intros Hds Hxs. split.
  - apply coefficientOfVariation_not_negative. assumption.
  - apply coefficientOfVariation_not_negative.
    apply Forall_map. eapply Forall_impl; [|exact Hxs].
    apply of_Z_uint8_nonneg.
Qed.

Lemma coefficients_not_negative_witness :
  ltb (coefficientOfVariation (dl [180; 240; 300])) zero = false /\
  ltb (coefficientOfVariation (map of_Z [2; 3; 5])) zero = false.
Proof.
  apply coefficients_not_negative.
  - repeat constructor.
  - repeat constructor; lia.
Defined.

(** ** The static density score on vectors of different lengths *)

Section Density.

Lemma weightedVolume_outcome (weight : Z -> double) (ds : list double) :
  forall (xs : list Z) (acc : double),
  ((List.length xs < List.length ds)%nat ->
   weightedVolume weight ds xs acc = Undefined) /\
  ((List.length ds <= List.length xs)%nat ->
   exists v, weightedVolume weight ds xs acc = Ok v).
Proof.
  induction ds as [|d ds IH]; intros xs acc.
  - split; [simpl; lia|]. intros _. exists acc. reflexivity.
  - destruct xs as [|x xs]; cbn [weightedVolume].
    + split; [reflexivity|simpl; lia].
    + destruct (IH xs (add acc (mul d (weight x)))) as [Hu Hd].
      split; intros H; [apply Hu|apply Hd]; simpl in H; lia.
Qed.

End Density.

(** Called directly, [calculateTrainingDensityScore] reads [intensities]
    past its end exactly when it is shorter than [durations]; otherwise it
    returns a score in the unit interval, and it never throws. *)
Theorem densityScore_outcome (ds : list double) (xs : list Z) :
  ((List.length xs < List.length ds)%nat ->
   calculateTrainingDensityScore ds xs = Undefined) /\
  ((List.length ds <= List.length xs)%nat ->
   exists r, calculateTrainingDensityScore ds xs = Ok r /\ in_unit_interval r).
Proof.
  unfold calculateTrainingDensityScore.
  destruct ds as [|d ds].
  - split; [simpl; lia|]. intros _. exists zero. repeat split.
  - destruct (weightedVolume_outcome normalizeIntensity (d :: ds) xs zero) as [Hu Hd].
    split; intros H.
    + rewrite (Hu H). reflexivity.
    + destruct (Hd H) as [v Hv]. rewrite Hv. cbn [bind].
      eexists. split; [reflexivity|]. apply clamp01_in_unit_interval.
Qed.

Lemma densityScore_outcome_witness :
  calculateTrainingDensityScore (dl [300; 240]) [3] = Undefined /\
  exists r, calculateTrainingDensityScore (dl [300; 240]) [3; 4; 5] = Ok r /\
            in_unit_interval r.
Proof.
  split.
  - apply (proj1 (densityScore_outcome (dl [300; 240]) [3])). simpl. lia.
  - apply (proj2 (densityScore_outcome (dl [300; 240]) [3; 4; 5])). simpl. lia.
Defined.

(** ** Messages of the errors *)

Section Messages.

Local Open Scope string_scope.

Lemma to_string_inj (i j : nat) : to_string i = to_string j -> i = j.
Proof.
  unfold to_string. intros H.
  apply DecimalNat.Unsigned.to_uint_inj.
  assert (E : Some (Nat.to_uint i) = Some (Nat.to_uint j)).
  { rewrite <- (NilEmpty.usu (Nat.to_uint i)), H. apply NilEmpty.usu. }
  injection E as E. exact E.
Qed.

Lemma list_ascii_of_append (s t : string) :
  list_ascii_of_string (s ++ t) = (list_ascii_of_string s ++ list_ascii_of_string t)%list.
Proof.
  induction s as [|c s IH]; [reflexivity|].
  cbn [append list_ascii_of_string]. rewrite IH. reflexivity.
Qed.

Lemma append_cancel_r (s1 s2 t : string) : s1 ++ t = s2 ++ t -> s1 = s2.
Proof.
  intros H. apply (f_equal list_ascii_of_string) in H.
  rewrite !list_ascii_of_append in H. apply app_inv_tail in H.
  apply (f_equal string_of_list_ascii) in H.
  rewrite !string_of_list_ascii_of_string in H. exact H.
Qed.

Lemma append_cancel_l (p s1 s2 : string) : p ++ s1 = p ++ s2 -> s1 = s2.
Proof.
  induction p as [|c p IH]; intros H; [exact H|].
  cbn [append] in H. injection H as H. apply IH. exact H.
Qed.

End Messages.

(** The message of the exception tells the errors apart, which all have
    the type [std::invalid_argument]: two range messages of one kind are
    equal only for the same index, and messages of different kinds are
    never equal. *)
Theorem error_messages_distinct (i j : nat) :
  (duration_range_message i = duration_range_message j -> i = j) /\
  (intensity_range_message i = intensity_range_message j -> i = j) /\
  duration_range_message i <> intensity_range_message j /\
  duration_range_message i <> size_mismatch_message /\
  duration_range_message i <> rest_size_message /\
  intensity_range_message i <> size_mismatch_message /\
  intensity_range_message i <> rest_size_message /\
  size_mismatch_message <> rest_size_message.
Proof.
  unfold duration_range_message, intensity_range_message.
  repeat split.
  - intros H. apply append_cancel_l, append_cancel_r in H.
    apply to_string_inj. exact H.
  - intros H. apply append_cancel_l, append_cancel_r in H.
    apply to_string_inj. exact H.
  - cbn [append]. discriminate.
  - cbn [append]. unfold size_mismatch_message. discriminate.
  - cbn [append]. discriminate.
  - cbn [append]. discriminate.
  - cbn [append]. discriminate.
  - discriminate.
Qed.

Lemma error_messages_distinct_witness :
  (7 = 7)%nat /\ duration_range_message 7 <> intensity_range_message 7.
Proof.
  split.
  - apply (proj1 (error_messages_distinct 7 7)). reflexivity.
  - apply (proj1 (proj2 (proj2 (error_messages_distinct 7 7)))).
Defined.
